(** * group_tasks.py: classification of task names by model series

    A shallow embedding of [src/group_tasks.py] ([get_model_series],
    [group_tasks_by_series], [write_groups_to_markdown] and [main]) and of
    [format_entry_to_table] from [src/modelFormatResult.py], together with
    the part of Python's [re] module that the rule list of
    [get_model_series] exercises.

    - Python strings are lists of code points; results that may raise
      live in [result].
    - [Sre] holds the pattern syntax and [re.compile]; [Matcher] the
      backtracking matcher behind [Pattern.search].
    - [GroupTasks] holds the functions of group_tasks.py.
    - [WithCache] passes the compile cache of [re] through them.
    - [Builtins] holds the built-in operations the reports use.
    - [ModelFormatResult] holds the table formatter of modelFormatResult.py.
    - [Ghost], [Shape] and [Layout] hold the notions that only the
      statements use.
    - The lemmas and the theorems about the claims follow, then the
      further properties of the scripts. *)

From Stdlib Require Import NArith ZArith String Ascii List Lia Bool.
From stdpp Require Import base option list gmap sorting.

Local Open Scope N_scope.
Local Open Scope nat_scope.

(* ------------------------------------------------------------------ *)
(** ** Python strings *)

(** A Python [str] is a sequence of Unicode code points. *)
Abbreviation str := (list N).

Definition ord (a : ascii) : N := N_of_ascii a.

(** String literals of the source, as [str]. *)
Fixpoint py (s : string) : str :=
  match s with
  | EmptyString => []
  | String a s' => ord a :: py s'
  end.

(** [s[i:j]] for [0 <= i <= j]. *)
Definition slice (s : str) (i j : nat) : str := take (j - i) (drop i s).

(** The character tables of the interpreter's Unicode database outside
    ASCII.  They change with the Unicode version the interpreter ships, so
    they are taken as an interface; the ASCII rows are fixed below. *)
Class UnicodeData : Type := {
  ucd_decimal : N -> bool;
  ucd_whitespace : N -> bool
}.

(** [_Py_ascii_whitespace]: TAB, LF, VT, FF, CR, FS, GS, RS, US, SPACE. *)
Definition ascii_whitespace (ch : N) : bool :=
  ((9 <=? ch) && (ch <=? 13) || (28 <=? ch) && (ch <=? 32))%N.

Definition Py_UNICODE_ISSPACE `{UnicodeData} (ch : N) : bool :=
  if (ch <? 128)%N then ascii_whitespace ch else ucd_whitespace ch.

Definition Py_UNICODE_ISDECIMAL `{UnicodeData} (ch : N) : bool :=
  if (ch <? 128)%N then ((48 <=? ch) && (ch <=? 57))%N else ucd_decimal ch.

(* ------------------------------------------------------------------ *)
(** ** Computations that may raise *)

Inductive exn : Type :=
| re_error (msg : string).

Inductive result (A : Type) : Type :=
| Return (a : A)
| Raise (e : exn).
Arguments Return {A} a.
Arguments Raise {A} e.

Global Instance result_ret : MRet result := fun A a => Return a.

Global Instance result_bind : MBind result := fun A B f c =>
  match c with
  | Return a => f a
  | Raise e => Raise e
  end.

(** Evaluate the elements of a list display left to right; the first one
    that raises aborts the construction. *)
Fixpoint sequence {A} (cs : list (result A)) : result (list A) :=
  match cs with
  | [] => Return []
  | c :: cs' => a ← c; l ← sequence cs'; Return (a :: l)
  end.

(* ------------------------------------------------------------------ *)
(** ** The [re] module: syntax *)

Module Sre.

Inductive category : Type := CATEGORY_DIGIT | CATEGORY_SPACE.

(** The members of a character set. *)
Inductive set_item : Type :=
| LITERAL (c : N)
| RANGE (lo hi : N)
| CATEGORY (k : category).

(** Parsed patterns.  [In] matches one character; [MaxRepeat lo hi s] is
    the greedy repetition of a one-character set ([hi = None] is
    unbounded); [Assert back r] is a look-ahead when [back = 0] and a
    look-behind over [back] characters otherwise. *)
Inductive regex : Type :=
| Empty
| In (items : list set_item)
| MaxRepeat (lo : nat) (hi : option nat) (items : list set_item)
| Seq (r1 r2 : regex)
| Branch (r1 r2 : regex)
| Subpattern (r : regex)
| Assert (back : nat) (r : regex).

(** A compiled pattern object: its source text ([Pattern.pattern]) and
    its code. *)
Record Pattern : Type := { pattern : str; code : regex }.

(** A match object: the subject string and the span of group 0. *)
Record Match : Type := { m_string : str; m_start : nat; m_end : nat }.

(** [match.group(0)] *)
Definition group0 (m : Match) : str := slice (m_string m) (m_start m) (m_end m).

(* ------------------------------------------------------------------ *)
(** ** The [re] module: [re.compile]

    The parser covers the constructs of the rule list: literals, the
    escapes [\d] and [\s], escaped punctuation, character sets with
    ranges, the greedy quantifiers [+], [*], [?] and [{n}] on a
    one-character item, alternation, groups, [(?:...)], [(?=...)] and
    [(?<=...)].  A pattern outside this fragment is reported through
    [Raise], whether Python accepts it or not; the patterns of the script
    are all inside it (lemma [patterns_compile]). *)

Definition is_chr (c : N) (a : ascii) : bool := (c =? ord a)%N.
Arguments is_chr c a%_char.

Definition is_ascii_alnum (c : N) : bool :=
  ((48 <=? c) && (c <=? 57) || (65 <=? c) && (c <=? 90)
   || (97 <=? c) && (c <=? 122))%N.

(** The code of an escape, the backslash already consumed. *)
Definition parse_escape (src : str) : result (set_item * str) :=
  match src with
  | [] => Raise (re_error "bad escape (end of pattern)")
  | c :: rest =>
      if is_chr c "d" then Return (CATEGORY CATEGORY_DIGIT, rest)
      else if is_chr c "s" then Return (CATEGORY CATEGORY_SPACE, rest)
      else if is_ascii_alnum c then Raise (re_error "unsupported escape")
      else Return (LITERAL c, rest)
  end.

(** One member of a set: a character or an escape. *)
Definition parse_set_code (c : N) (rest : str) : result (set_item * str) :=
  if is_chr c "\" then parse_escape rest else Return (LITERAL c, rest).

(** The body of [[...]], the bracket already consumed.  A [']'] closes
    the set unless it comes first; a ['-'] right before the closing
    bracket is a literal. *)
Fixpoint parse_set (fuel : nat) (set : list set_item) (src : str)
  : result (list set_item * str) :=
  match fuel with
  | O => Raise (re_error "unterminated character set")
  | S fuel' =>
      match src with
      | [] => Raise (re_error "unterminated character set")
      | this :: src1 =>
          if is_chr this "]" && negb (bool_decide (set = [])) then Return (set, src1)
          else
            '(code1, src2) ← parse_set_code this src1;
            match src2 with
            | dash :: src3 =>
                if is_chr dash "-" then
                  match src3 with
                  | [] => Raise (re_error "unterminated character set")
                  | that :: src4 =>
                      if is_chr that "]" then
                        Return (set ++ [code1; LITERAL (ord "-"%char)], src4)
                      else
                        '(code2, src5) ← parse_set_code that src4;
                        match code1, code2 with
                        | LITERAL lo, LITERAL hi =>
                            if (hi <? lo)%N
                            then Raise (re_error "bad character range")
                            else parse_set fuel' (set ++ [RANGE lo hi]) src5
                        | _, _ => Raise (re_error "bad character range")
                        end
                  end
                else parse_set fuel' (set ++ [code1]) src2
            | [] => parse_set fuel' (set ++ [code1]) src2
            end
      end
  end.

(** Decimal digits of a [{n}] quantifier. *)
Definition is_digit (c : N) : bool := ((48 <=? c) && (c <=? 57))%N.

Fixpoint parse_digits (acc : nat) (src : str) : nat * str :=
  match src with
  | c :: rest =>
      if is_digit c then parse_digits (10 * acc + N.to_nat (c - 48)) rest
      else (acc, src)
  | [] => (acc, src)
  end.

Definition is_repeat_char (c : N) : bool :=
  is_chr c "*" || is_chr c "+" || is_chr c "?" || is_chr c "{".

(** A quantifier may not be followed by another one; the lazy and
    possessive suffixes are outside the fragment. *)
Definition no_second_repeat (r : regex) (rest : str) : result (regex * str) :=
  match rest with
  | c :: _ =>
      if is_repeat_char c then Raise (re_error "multiple repeat")
      else Return (r, rest)
  | [] => Return (r, rest)
  end.

(** The quantifier after an item, if any. *)
Definition parse_repeat (item : regex) (src : str) : result (regex * str) :=
  match src with
  | [] => Return (item, src)
  | c :: rest =>
      if is_repeat_char c then
        match item with
        | In items =>
            if is_chr c "+" then no_second_repeat (MaxRepeat 1 None items) rest
            else if is_chr c "*" then no_second_repeat (MaxRepeat 0 None items) rest
            else if is_chr c "?" then no_second_repeat (MaxRepeat 0 (Some 1) items) rest
            else
              match rest with
              | d :: _ =>
                  if is_digit d then
                    let '(n, rest1) := parse_digits 0 rest in
                    match rest1 with
                    | close :: rest2 =>
                        if is_chr close "}"
                        then no_second_repeat (MaxRepeat n (Some n) items) rest2
                        else Raise (re_error "unsupported repeat")
                    | [] => Raise (re_error "unsupported repeat")
                    end
                  else Raise (re_error "unsupported repeat")
              | [] => Raise (re_error "unsupported repeat")
              end
        | _ => Raise (re_error "unsupported repeat")
        end
      else Return (item, src)
  end.

(** [getwidth] for patterns of fixed width. *)
Fixpoint width (r : regex) : option nat :=
  match r with
  | Empty => Some 0
  | In _ => Some 1
  | MaxRepeat lo hi _ => if bool_decide (hi = Some lo) then Some lo else None
  | Seq r1 r2 =>
      match width r1, width r2 with
      | Some a, Some b => Some (a + b)
      | _, _ => None
      end
  | Branch r1 r2 =>
      match width r1, width r2 with
      | Some a, Some b => if bool_decide (a = b) then Some a else None
      | _, _ => None
      end
  | Subpattern r1 => width r1
  | Assert _ _ => Some 0
  end.

Definition expect_close (r : regex) (src : str) : result (regex * str) :=
  match src with
  | c :: rest =>
      if is_chr c ")" then Return (r, rest)
      else Raise (re_error "missing ), unterminated subpattern")
  | [] => Raise (re_error "missing ), unterminated subpattern")
  end.

Definition look_behind (r : regex) : result regex :=
  match width r with
  | Some w => Return (Assert w r)
  | None => Raise (re_error "look-behind requires fixed-width pattern")
  end.

Definition too_deep {A} : result A := Raise (re_error "pattern too long").

(** [_parse_sub]: alternatives separated by ['|'];
    [parse_seq] ([_parse]): items up to ['|'], [')'] or the end;
    [parse_item]: one item, its first character already consumed. *)
Fixpoint parse_sub (fuel : nat) (src : str) : result (regex * str) :=
  match fuel with
  | O => too_deep
  | S fuel' =>
      '(items, rest) ← parse_seq fuel' src;
      match rest with
      | c :: rest' =>
          if is_chr c "|" then
            '(others, rest'') ← parse_sub fuel' rest';
            Return (Branch items others, rest'')
          else Return (items, rest)
      | [] => Return (items, rest)
      end
  end
with parse_seq (fuel : nat) (src : str) : result (regex * str) :=
  match fuel with
  | O => too_deep
  | S fuel' =>
      match src with
      | [] => Return (Empty, src)
      | this :: rest =>
          if is_chr this "|" || is_chr this ")" then Return (Empty, src)
          else
            '(item, rest1) ← parse_item fuel' this rest;
            '(item', rest2) ← parse_repeat item rest1;
            '(tail, rest3) ← parse_seq fuel' rest2;
            Return (Seq item' tail, rest3)
      end
  end
with parse_item (fuel : nat) (this : N) (rest : str) : result (regex * str) :=
  match fuel with
  | O => too_deep
  | S fuel' =>
      if is_chr this "\" then
        '(code, rest1) ← parse_escape rest; Return (In [code], rest1)
      else if is_chr this "[" then
        match rest with
        | c :: _ =>
            if is_chr c "^" then Raise (re_error "unsupported negated set")
            else
              '(set, rest1) ← parse_set (length rest) [] rest;
              Return (In set, rest1)
        | [] => Raise (re_error "unterminated character set")
        end
      else if is_chr this "(" then
        match rest with
        | q :: rest1 =>
            if is_chr q "?" then
              match rest1 with
              | c :: rest2 =>
                  if is_chr c ":" then
                    '(p, rest3) ← parse_sub fuel' rest2; expect_close p rest3
                  else if is_chr c "=" then
                    '(p, rest3) ← parse_sub fuel' rest2;
                    expect_close (Assert 0 p) rest3
                  else if is_chr c "<" then
                    match rest2 with
                    | d :: rest3 =>
                        if is_chr d "=" then
                          '(p, rest4) ← parse_sub fuel' rest3;
                          a ← look_behind p;
                          expect_close a rest4
                        else Raise (re_error "unsupported group")
                    | [] => Raise (re_error "unexpected end of pattern")
                    end
                  else Raise (re_error "unsupported group")
              | [] => Raise (re_error "unexpected end of pattern")
              end
            else
              '(p, rest3) ← parse_sub fuel' rest;
              expect_close (Subpattern p) rest3
        | [] => Raise (re_error "missing ), unterminated subpattern")
        end
      else if is_repeat_char this then Raise (re_error "nothing to repeat")
      else if is_chr this "." || is_chr this "^" || is_chr this "$" then
        Raise (re_error "unsupported item")
      else Return (In [LITERAL this], rest)
  end.

Definition parse (src : str) : result regex :=
  '(p, rest) ← parse_sub (3 * length src + 3) src;
  match rest with
  | [] => Return p
  | _ => Raise (re_error "unbalanced parenthesis")
  end.

(** [re.compile(pattern)] *)
Definition compile (source : str) : result Pattern :=
  p ← parse source; Return {| pattern := source; code := p |}.

End Sre.

(* ------------------------------------------------------------------ *)
(** ** The [re] module: matching *)

Module Matcher.
Import Sre.

Section WithUnicode.
Context {U : UnicodeData}.

Definition category_test (k : category) (ch : N) : bool :=
  match k with
  | CATEGORY_DIGIT => Py_UNICODE_ISDECIMAL ch
  | CATEGORY_SPACE => Py_UNICODE_ISSPACE ch
  end.

Definition item_test (it : set_item) (ch : N) : bool :=
  match it with
  | LITERAL c => (ch =? c)%N
  | RANGE lo hi => ((lo <=? ch) && (ch <=? hi))%N
  | CATEGORY k => category_test k ch
  end.

(** Membership of a character in a set. *)
Definition charset (items : list set_item) (ch : N) : bool :=
  existsb (fun it => item_test it ch) items.

(** The number of leading characters of [s] that are in the set, at most
    [maxcount]. *)
Fixpoint count (items : list set_item) (maxcount : nat) (s : str) : nat :=
  match maxcount, s with
  | S m, ch :: s' => if charset items ch then S (count items m s') else 0
  | _, _ => 0
  end.

(** The tail of a greedy repetition: after [n] repetitions from [pos], try
    the rest of the pattern, giving back one character at a time, never
    fewer than [lo]. *)
Fixpoint backoff (k : nat -> option nat) (pos lo n : nat) : option nat :=
  if n <? lo then None
  else
    match k (pos + n) with
    | Some e => Some e
    | None =>
        match n with
        | O => None
        | S n' => backoff k pos lo n'
        end
    end.

(** The backtracking matcher: match [r] in [text] at [pos] and then the
    rest of the pattern, given as the continuation [k]; the result is the
    end of the whole match.  Alternatives are tried in order and
    repetitions longest first, so the first success is the match the
    [re] module reports.  An assertion is matched on its own, starting
    [back] characters before [pos], and consumes nothing. *)
Fixpoint sre_match (text : str) (r : regex) (pos : nat)
    (k : nat -> option nat) : option nat :=
  match r with
  | Empty => k pos
  | In items =>
      match text !! pos with
      | Some ch => if charset items ch then k (S pos) else None
      | None => None
      end
  | MaxRepeat lo hi items =>
      let rest := drop pos text in
      let n := count items (default (length rest) hi) rest in
      backoff k pos lo n
  | Seq r1 r2 => sre_match text r1 pos (fun pos' => sre_match text r2 pos' k)
  | Branch r1 r2 =>
      match sre_match text r1 pos k with
      | Some e => Some e
      | None => sre_match text r2 pos k
      end
  | Subpattern r1 => sre_match text r1 pos k
  | Assert back r1 =>
      if pos <? back then None
      else
        match sre_match text r1 (pos - back) Some with
        | Some _ => k pos
        | None => None
        end
  end.

(** The scan of [search]: try the start positions [pos], [pos + 1], ...,
    [pos + n] in turn. *)
Fixpoint scan (text : str) (r : regex) (pos n : nat) : option Match :=
  match sre_match text r pos Some with
  | Some e => Some {| m_string := text; m_start := pos; m_end := e |}
  | None =>
      match n with
      | O => None
      | S n' => scan text r (S pos) n'
      end
  end.

(** [Pattern.search(string)]: the leftmost match, or [None]. *)
Definition search (p : Pattern) (string : str) : option Match :=
  scan string (code p) 0 (length string).

End WithUnicode.
End Matcher.

(* ------------------------------------------------------------------ *)
(** ** Built-in operations the script's report relies on *)

Module Builtins.

(** [a < b] on strings: lexicographic by code point, a proper prefix
    being smaller. *)
Fixpoint str_lt (a b : str) : bool :=
  match a, b with
  | _, [] => false
  | [], _ :: _ => true
  | x :: a', y :: b' =>
      if (x <? y)%N then true
      else if (y <? x)%N then false
      else str_lt a' b'
  end.

(** [a < b] on tuples [(bool, str)]: the first components decide unless
    they are equal; [False < True]. *)
Definition tuple_lt (a b : bool * str) : bool :=
  if bool_decide (a.1 = b.1) then str_lt a.2 b.2
  else negb a.1 && b.1.

Section Sorted.
Context {A K : Type} (lt : K -> K -> bool) (key : A -> K).

(** Put [x] after the elements with a smaller key and before the others. *)
Fixpoint insort (x : A) (l : list A) : list A :=
  match l with
  | [] => [x]
  | y :: l' => if lt (key y) (key x) then y :: insort x l' else x :: l
  end.

(** [sorted(l, key=key)]: the stable ascending sort, which compares keys
    with [<] only; an element stays before the later elements of equal
    key. *)
Definition sorted (l : list A) : list A := foldr insort [] l.

End Sorted.

(** [sorted(l, key=key, reverse=True)]: the list is reversed, sorted and
    reversed again, which keeps elements of equal key in their order. *)
Definition sorted_reverse {A K} (lt : K -> K -> bool) (key : A -> K)
    (l : list A) : list A :=
  reverse (sorted lt key (reverse l)).

(** [s.ljust(width)]: pad with spaces on the right up to [width]; a
    longer string is left as it is. *)
Definition ljust (s : str) (width : nat) : str :=
  s ++ replicate (width - length s) 32%N.

(** [sep.join(l)] *)
Fixpoint join (sep : str) (l : list str) : str :=
  match l with
  | [] => []
  | [s] => s
  | s :: l' => s ++ sep ++ join sep l'
  end.

(** The decimal digits of [n] before [acc]. *)
Fixpoint digits (fuel : nat) (n : N) (acc : str) : str :=
  match fuel with
  | O => acc
  | S fuel' =>
      let acc' := (48 + n mod 10)%N :: acc in
      if (n <? 10)%N then acc' else digits fuel' (n / 10)%N acc'
  end.

(** [str(n)] for an integer: its decimal digits, with a minus sign when
    negative.  (The limit recent interpreters put on the number of digits
    of a converted integer is not part of the model.) *)
Definition str_int (n : Z) : str :=
  match n with
  | Z0 => [48%N]
  | Zpos p => digits (S (N.size_nat (Npos p))) (Npos p) []
  | Zneg p => 45%N :: digits (S (N.size_nat (Npos p))) (Npos p) []
  end.

End Builtins.

(* ------------------------------------------------------------------ *)
(** ** group_tasks.py *)

Module GroupTasks.
Import Sre Matcher.

(** One entry of the [patterns] list: [(re.compile(source), match_type)]. *)
Definition entry (source match_type : string) : result (Pattern * str) :=
  p ← compile (py source); Return (p, py match_type).

(** The list [patterns] of [get_model_series], in source order. *)
Definition patterns : result (list (Pattern * str)) :=
  sequence [
    entry "yx_gzy_jj" "gzy";
    entry "xm_jj" "xm_jj";
    entry "jj_A\d+" "jj_A";
    entry "xm_jj_Y\d+_072[5-7]" "jj_Y";
    entry "xm_jj_jy_07(16|24)" "jj_jy";
    entry "lt_LKltjja[\d-]+" "full_match";
    entry "lt_LXjja[\d-]+" "full_match";
    entry "lt_LKjja[\d-]+" "full_match";
    entry "lt_jja[\d.-]+" "full_match";
    entry "lt_ltjja[\d-]+" "full_match";
    entry "LKXjja[\d-]+" "full_match";
    entry "LKjja[\d-]+" "full_match";
    entry "Lk12a20-1" "full_match";
    entry "jja[\d-]+" "full_match";
    entry "LXda\d+" "full_match";
    entry "LXd\d+" "full_match";
    entry "x\d+" "full_match";
    entry "u\d+" "full_match";
    entry "rt[_-]dj" "rt_dj";
    entry "rz_dj" "static";
    entry "rz[_-]bc" "rz_bc";
    entry "apbc\d+" "full_match";
    entry "(?<=bc[_-])v\d+" "full_match";
    entry "v20(?=[-_]|\s)" "v20";
    entry "\d{4}-bc" "bc";
    entry "bc0\d+" "full_match";
    entry "rt_bc" "static";
    entry "bc(?=_)" "static"
  ].

Section WithUnicode.
Context {U : UnicodeData}.

(** The value returned when an entry matches (lines 73-79). *)
Definition derive (pattern : Pattern) (match_type : str) (match_ : Match) : str :=
  if bool_decide (match_type = py "full_match") then group0 match_
  else if bool_decide (match_type = py "static") then Sre.pattern pattern
  else match_type.

(** The [for] loop of lines 70-80 over the remaining entries; the result
    is the returned string, or [None] for Python's [None]. *)
Fixpoint first_match (entries : list (Pattern * str)) (task_name : str)
  : option str :=
  match entries with
  | [] => None
  | (pattern, match_type) :: entries' =>
      match search pattern task_name with
      | Some match_ => Some (derive pattern match_type match_)
      | None => first_match entries' task_name
      end
  end.

Definition get_model_series (task_name : str) : result (option str) :=
  entries ← patterns; Return (first_match entries task_name).

(** [str.strip()]: drop the white space at both ends. *)
Fixpoint lstrip (s : str) : str :=
  match s with
  | ch :: s' => if Py_UNICODE_ISSPACE ch then lstrip s' else s
  | [] => []
  end.

Definition strip (s : str) : str := reverse (lstrip (reverse (lstrip s))).

(** Truth value of the result of [get_model_series]: [None] and the empty
    string are false. *)
Definition truthy (v : option str) : bool :=
  match v with
  | Some (_ :: _) => true
  | _ => false
  end.

(** [task_groups[key].append(item)] on a [defaultdict(list)]. *)
Definition append_to (task_groups : gmap str (list str)) (key item : str)
  : gmap str (list str) :=
  <[key := task_groups !!! key ++ [item]]> task_groups.

(** Lines 93-97: file a task name under its series. *)
Definition file_task (task_groups : gmap str (list str)) (task_name : str)
  : result (gmap str (list str)) :=
  series ← get_model_series task_name;
  if truthy series
  then Return (append_to task_groups (default [] series) task_name)
  else Return (append_to task_groups (py "Uncategorized") task_name).

(** The body of the loop over the lines of the file (lines 90-97). *)
Definition group_line (task_groups : gmap str (list str)) (line : str)
  : result (gmap str (list str)) :=
  let task_name := strip line in
  if bool_decide (task_name = []) then Return task_groups
  else file_task task_groups task_name.

Fixpoint group_lines (task_groups : gmap str (list str)) (lines : list str)
  : result (gmap str (list str)) :=
  match lines with
  | [] => Return task_groups
  | line :: lines' =>
      task_groups' ← group_line task_groups line;
      group_lines task_groups' lines'
  end.

(** [group_tasks_by_series], on the content of the input file: [None]
    when the file does not exist, else its lines.  The function returns
    [None] in the first case and the groups otherwise. *)
Definition group_tasks_by_series (input_file : option (list str))
  : result (option (gmap str (list str))) :=
  match input_file with
  | None => Return None
  | Some lines => task_groups ← group_lines ∅ lines; Return (Some task_groups)
  end.

End WithUnicode.

(** *** The report *)

Import Builtins.

Definition newline : str := [10%N].

(** The local variable [sorted_series] (lines 110-113); the keys of the
    dictionary are distinct, so the order in which they are listed before
    the sort does not show in the result. *)
Definition sorted_series (task_groups : gmap str (list str)) : list str :=
  sorted tuple_lt (fun x => (bool_decide (x = py "Uncategorized"), x))
    (map_to_list task_groups).*1.

(** The text [write_groups_to_markdown] writes to the output file, the
    file operations taken to succeed. *)
Definition write_groups_to_markdown (task_groups : gmap str (list str)) : str :=
  py "# Model Series Groups" ++ newline ++ newline ++
  concat
    ((fun series =>
        py "## Series: " ++ series ++ newline ++ newline ++
        concat
          ((fun task_name => py "- `" ++ task_name ++ py "`" ++ newline)
             <$> sorted str_lt id (task_groups !!! series)) ++
        newline)
       <$> sorted_series task_groups).

(** What a run of the script leaves behind: the lines printed and the
    text of the output file, if one is written. *)
Record run : Type := { stdout : list str; output : option str }.

Section Main.
Context {U : UnicodeData}.

(** [main], the two paths already taken from the command line.  [content]
    is the content of the input file, [None] when the file does not exist;
    [abspath] is [os.path.abspath].  The message of line 99 is printed
    inside [group_tasks_by_series]. *)
Definition main (abspath : str -> str) (input_file output_file : str)
    (content : option (list str)) : result run :=
  task_groups ← group_tasks_by_series content;
  let printed :=
    match content with
    | None => [py "Error: Input file '" ++ input_file ++ py "' not found."]
    | Some _ => []
    end in
  match task_groups with
  | Some groups =>
      if bool_decide (groups = ∅) then
        Return {| stdout := printed; output := None |}
      else
        Return {| stdout := printed ++
                    [py "Successfully grouped tasks from '" ++ input_file ++
                     py "' and created '" ++ abspath output_file ++ py "'"];
                  output := Some (write_groups_to_markdown groups) |}
  | None => Return {| stdout := printed; output := None |}
  end.

End Main.

End GroupTasks.

(* ------------------------------------------------------------------ *)
(** ** modelFormatResult.py: the table of an entry *)

Module ModelFormatResult.
Import Builtins.

(** A parsed line as [parse_csv_line] returns it: six strings and the
    area counts, in the order of the dictionary. *)
Record entry : Type := {
  companyId : str;
  industryId : str;
  startDate : str;
  endDate : str;
  modelName : str;
  countNum : str;
  areaCountMap : list (str * Z)
}.

Definition key_width : nat := 15.
Definition value_width : nat := 30.

(** A line [f"| {k.ljust(key_width)} | {v.ljust(value_width)} |"]. *)
Definition row (k v : str) : str :=
  py "| " ++ ljust k key_width ++ py " | " ++ ljust v value_width ++ py " |".

(** The line [f"|{'-' * (key_width + 2)}|{'-' * (value_width + 2)}|"]. *)
Definition rule : str :=
  py "|" ++ replicate (key_width + 2) 45%N ++ py "|" ++
  replicate (value_width + 2) 45%N ++ py "|".

(** The local variable [sorted_areas] (line 69). *)
Definition sorted_areas (e : entry) : list (str * Z) :=
  sorted_reverse Z.ltb snd (areaCountMap e).

(** The local variable [lines] at the end of the function. *)
Definition table_lines (e : entry) : list str :=
  [ row (py "companyId") (companyId e);
    row (py "industryId") (industryId e);
    rule;
    row (py "startDate") (startDate e);
    row (py "endDate") (endDate e);
    row (py "modelName") (modelName e);
    row (py "countNum") (countNum e);
    row (py "area") (py "count");
    rule ] ++
  ((fun item => row item.1 (str_int item.2)) <$> sorted_areas e).

(** [format_entry_to_table]; [None] stands for an entry that is [None]
    or empty. *)
Definition format_entry_to_table (entry : option entry) : str :=
  match entry with
  | None => []
  | Some e => join [10%N] (table_lines e)
  end.

End ModelFormatResult.

Module Layout.
Import Builtins ModelFormatResult.
(** Every text of the entry fits its column. *)
Definition fits (e : entry) : Prop :=
  Forall (fun v => length v <= value_width)
    [companyId e; industryId e; startDate e; endDate e; modelName e;
     countNum e] /\
  Forall (fun item => length item.1 <= key_width /\
                      length (str_int item.2) <= value_width)
    (areaCountMap e).
End Layout.


(* ------------------------------------------------------------------ *)
(** ** group_tasks.py with the compile cache of [re] *)

(** [re.compile] keeps the patterns it has compiled in a dictionary of the
    [re] module, keyed by the type of the source, the source and the
    flags; [get_model_series] passes a [str] and no flags every time, so
    the key is the source.  The list [patterns] is local to a call and
    built anew by each one, and the function reads and writes no global,
    no file and no argument: this cache is the only state that outlives a
    call.  Here the functions are written with the cache passed through
    them. *)
Module WithCache.
Import Sre Matcher GroupTasks.
Local Open Scope string_scope.

(** What the cache becomes when [re._compile] has the pattern [p] of
    [source] in hand.  The bookkeeping differs between versions of the
    interpreter (clear the cache when it is full, drop its oldest entry,
    move the entry between two levels); every version only keeps entries
    it had or adds the one in hand. *)
Class CachePolicy : Type := {
  remember : gmap str Pattern -> str -> Pattern -> gmap str Pattern;
  remember_lookup cache source p k q :
    remember cache source p !! k = Some q ->
    (k = source /\ q = p) \/ cache !! k = Some q
}.

(** The sources and the match types of the list [patterns], in source
    order. *)
Definition rules : list (string * string) := [
    ("yx_gzy_jj", "gzy");
    ("xm_jj", "xm_jj");
    ("jj_A\d+", "jj_A");
    ("xm_jj_Y\d+_072[5-7]", "jj_Y");
    ("xm_jj_jy_07(16|24)", "jj_jy");
    ("lt_LKltjja[\d-]+", "full_match");
    ("lt_LXjja[\d-]+", "full_match");
    ("lt_LKjja[\d-]+", "full_match");
    ("lt_jja[\d.-]+", "full_match");
    ("lt_ltjja[\d-]+", "full_match");
    ("LKXjja[\d-]+", "full_match");
    ("LKjja[\d-]+", "full_match");
    ("Lk12a20-1", "full_match");
    ("jja[\d-]+", "full_match");
    ("LXda\d+", "full_match");
    ("LXd\d+", "full_match");
    ("x\d+", "full_match");
    ("u\d+", "full_match");
    ("rt[_-]dj", "rt_dj");
    ("rz_dj", "static");
    ("rz[_-]bc", "rz_bc");
    ("apbc\d+", "full_match");
    ("(?<=bc[_-])v\d+", "full_match");
    ("v20(?=[-_]|\s)", "v20");
    ("\d{4}-bc", "bc");
    ("bc0\d+", "full_match");
    ("rt_bc", "static");
    ("bc(?=_)", "static")
  ].

Section WithPolicy.
Context {C : CachePolicy} {U : UnicodeData}.

(** [re.compile(source)]: a cached pattern is returned as it is;
    otherwise the source is compiled and, unless that raises,
    remembered. *)
Definition compile (source : str) (cache : gmap str Pattern)
  : result Pattern * gmap str Pattern :=
  match cache !! source with
  | Some p => (Return p, remember cache source p)
  | None =>
      match Sre.compile source with
      | Return p => (Return p, remember cache source p)
      | Raise e => (Raise e, cache)
      end
  end.

(** The list display of lines 11-68: the entries are compiled from left
    to right, each from the cache the one before it left. *)
Fixpoint compile_entries (rules : list (string * string))
    (cache : gmap str Pattern)
  : result (list (Pattern * str)) * gmap str Pattern :=
  match rules with
  | [] => (Return [], cache)
  | (source, match_type) :: rules' =>
      match compile (py source) cache with
      | (Return p, cache1) =>
          match compile_entries rules' cache1 with
          | (Return entries, cache2) =>
              (Return ((p, py match_type) :: entries), cache2)
          | (Raise e, cache2) => (Raise e, cache2)
          end
      | (Raise e, cache1) => (Raise e, cache1)
      end
  end.

Definition patterns (cache : gmap str Pattern)
  : result (list (Pattern * str)) * gmap str Pattern :=
  compile_entries rules cache.

(** A call of [get_model_series]: its result and the cache it leaves. *)
Definition get_model_series (task_name : str) (cache : gmap str Pattern)
  : result (option str) * gmap str Pattern :=
  match patterns cache with
  | (Return entries, cache') => (Return (first_match entries task_name), cache')
  | (Raise e, cache') => (Raise e, cache')
  end.

(** The caches a process can hold: the cache is empty when the [re]
    module is loaded, and only [re.compile] writes to it. *)
Inductive reachable : gmap str Pattern -> Prop :=
| reachable_start : reachable ∅
| reachable_compile source cache :
    reachable cache -> reachable (compile source cache).2.

(** Every cached pattern is the one its source compiles to. *)
Definition consistent (cache : gmap str Pattern) : Prop :=
  forall source p, cache !! source = Some p -> Sre.compile source = Return p.

End WithPolicy.

(** The policy of a cache that is never full: every pattern is kept. *)
Definition keep_all_remember (cache : gmap str Pattern) (source : str)
    (p : Pattern) : gmap str Pattern :=
  <[source:=p]> cache.

(** A pattern for the source "xm_jj" that matches nothing: an entry that
    [re.compile] never writes. *)
Definition stale_cache : gmap str Pattern :=
  {[ py "xm_jj" := {| pattern := py "xm_jj"; code := In [] |} ]}.

End WithCache.

(* ------------------------------------------------------------------ *)
(** ** Auxiliary notions used in the statements *)

Module Ghost.
Import Sre Matcher GroupTasks.

(** The compiled rule table. *)
Definition table : list (Pattern * str) :=
  Eval vm_compute in
    match patterns with
    | Return entries => entries
    | Raise _ => []
    end.

(** Tables of an interpreter that knows no digit and no white space
    outside ASCII; used to run the model on ASCII inputs. *)
Definition ascii_tables : UnicodeData :=
  {| ucd_decimal := fun _ => false; ucd_whitespace := fun _ => false |}.

Section WithUnicode.
Context {U : UnicodeData}.

(** [Pattern.match(string, pos)]: a match starting exactly at [pos]. *)
Definition match_at (p : Pattern) (string : str) (pos : nat) : option nat :=
  sre_match string (code p) pos Some.

(** The pattern is found in the text. *)
Definition found (p : Pattern) (string : str) : Prop :=
  is_Some (search p string).

(** The patterns whose [search] the loop of [get_model_series] evaluates,
    in order: a history variable of [first_match]. *)
Fixpoint searched (entries : list (Pattern * str)) (task_name : str)
  : list Pattern :=
  match entries with
  | [] => []
  | (pattern, _) :: entries' =>
      pattern ::
      match search pattern task_name with
      | Some _ => []
      | None => searched entries' task_name
      end
  end.

(** No entry of the list is found in the text. *)
Definition no_match (entries : list (Pattern * str)) (task_name : str) : Prop :=
  Forall (fun e => search e.1 task_name = None) entries.

(** No entry before index [i] is found in the text. *)
Definition none_before (entries : list (Pattern * str)) (i : nat)
    (task_name : str) : Prop :=
  no_match (take i entries) task_name.

(** The loop of lines 70-80 instrumented with the index of its iteration:
    the index of the entry through which the loop returns, or [None] when
    it runs to the end of the list. *)
Fixpoint returning_entry (entries : list (Pattern * str)) (task_name : str)
  : option nat :=
  match entries with
  | [] => None
  | (pattern, _) :: entries' =>
      match search pattern task_name with
      | Some _ => Some 0
      | None => S <$> returning_entry entries' task_name
      end
  end.

(** Big-step semantics of the loop of lines 70-80, as a relation between
    the remaining entries and the value returned. *)
Inductive loop_returns (task_name : str)
  : list (Pattern * str) -> option str -> Prop :=
| loop_exhausted :
    loop_returns task_name [] None
| loop_hit pattern match_type entries match_ :
    search pattern task_name = Some match_ ->
    loop_returns task_name ((pattern, match_type) :: entries)
      (Some (derive pattern match_type match_))
| loop_miss pattern match_type entries v :
    search pattern task_name = None ->
    loop_returns task_name entries v ->
    loop_returns task_name ((pattern, match_type) :: entries) v.

(** A call of [get_model_series]: building the list either raises or gives
    the entries the loop runs over. *)
Inductive call_returns (task_name : str) : result (option str) -> Prop :=
| call_raises e :
    patterns = Raise e ->
    call_returns task_name (Raise e)
| call_loops entries v :
    patterns = Return entries ->
    loop_returns task_name entries v ->
    call_returns task_name (Return v).

End WithUnicode.
End Ghost.

(* ------------------------------------------------------------------ *)
(** ** Auxiliary notions for the further properties *)

Module Shape.
Import Sre Matcher GroupTasks Ghost.

(** The least number of characters a match of the pattern spans. *)
Fixpoint min_width (r : regex) : nat :=
  match r with
  | Empty => 0
  | In _ => 1
  | MaxRepeat lo _ _ => lo
  | Seq r1 r2 => min_width r1 + min_width r2
  | Branch r1 r2 => min_width r1 `min` min_width r2
  | Subpattern r1 => min_width r1
  | Assert _ _ => 0
  end.

(** The literal characters every match of the pattern starts with, and
    whether a match spans exactly these. *)
Fixpoint literal_prefix (r : regex) : str * bool :=
  match r with
  | Empty => ([], true)
  | In [LITERAL c] => ([c], true)
  | In _ => ([], false)
  | MaxRepeat _ _ _ => ([], false)
  | Seq r1 r2 =>
      let '(l1, exact1) := literal_prefix r1 in
      if exact1 then
        let '(l2, exact2) := literal_prefix r2 in (l1 ++ l2, exact2)
      else (l1, false)
  | Branch _ _ => ([], false)
  | Subpattern r1 => literal_prefix r1
  | Assert _ _ => ([], true)
  end.

(** The set of the unbounded repetition a pattern ends with, if it ends
    with one. *)
Fixpoint final_run (r : regex) : option (list set_item) :=
  match r with
  | MaxRepeat _ None items => Some items
  | Seq r1 Empty => final_run r1
  | Seq _ r2 => final_run r2
  | Subpattern r1 => final_run r1
  | _ => None
  end.

(** The strings [get_model_series] returns through an entry with a label
    of its own or of type 'static'. *)
Definition fixed_labels : list str :=
  py <$> ["gzy"; "xm_jj"; "jj_A"; "rt_dj"; "rz_dj"; "rz_bc"; "v20"; "bc";
          "rt_bc"; "bc(?=_)"]%string.

(** The literal prefixes of the patterns of type 'full_match'. *)
Definition full_match_prefixes : list str :=
  py <$> ["lt_LKltjja"; "lt_LXjja"; "lt_LKjja"; "lt_jja"; "lt_ltjja";
          "LKXjja"; "LKjja"; "Lk12a20-1"; "jja"; "LXda"; "LXd"; "x"; "u";
          "apbc"; "v"; "bc0"]%string.

Section WithUnicode.
Context {U : UnicodeData}.

(** The key under which lines 93-97 file a task name. *)
Definition series_of (task_name : str) : str :=
  match get_model_series task_name with
  | Return (Some (c :: s)) => c :: s
  | _ => py "Uncategorized"
  end.

(** The task names of a file: its lines, stripped, the empty ones left
    out (lines 90-92). *)
Definition task_names (lines : list str) : list str :=
  filter (fun t => t <> []) (strip <$> lines).

(** A string of white space only. *)
Definition blank (s : str) : Prop :=
  Forall (fun ch => Py_UNICODE_ISSPACE ch = true) s.

End WithUnicode.
End Shape.

(* ------------------------------------------------------------------ *)
(** ** The loop over an arbitrary list of entries *)

Import Sre Matcher GroupTasks Ghost.

Section Loop.
Context {U : UnicodeData}.
Implicit Types (entries : list (Pattern * str)) (t : str).

Lemma none_before_tail p mt entries i t :
  none_before ((p, mt) :: entries) (S i) t ->
  search p t = None /\ none_before entries i t.
Proof. unfold none_before, no_match. simpl. now rewrite Forall_cons. Qed.

Lemma first_match_at entries t : forall i p mt m,
  entries !! i = Some (p, mt) ->
  search p t = Some m ->
  none_before entries i t ->
  first_match entries t = Some (derive p mt m).
Proof.
  induction entries as [|[q mq] entries IH]; intros i p mt m Hi Hm Hnb.
  - discriminate.
  - destruct i as [|i]; simpl in *.
    + injection Hi as -> ->. now rewrite Hm.
    + apply none_before_tail in Hnb as [Hq Hnb].
      rewrite Hq. eauto.
Qed.


Lemma first_match_none entries t :
  no_match entries t ->
  first_match entries t = None /\ searched entries t = entries.*1.
Proof.
  induction 1 as [|[q mq] entries Hq _ [IH1 IH2]]; simpl in *.
  - done.
  - rewrite Hq. now rewrite IH2.
Qed.

Lemma loop_returns_first_match entries t :
  loop_returns t entries (first_match entries t).
Proof.
  induction entries as [|[q mq] entries IH]; simpl.
  - constructor.
  - destruct (search q t) eqn:Hq; now constructor.
Qed.

Lemma returning_entry_spec entries t : forall i,
  returning_entry entries t = Some i <->
  exists p mt,
    entries !! i = Some (p, mt) /\ found p t /\ none_before entries i t.
Proof.
  induction entries as [|[q mq] entries IH]; intros i; simpl.
  - split; [discriminate|]. now intros (p & mt & Hi & _).
  - destruct (search q t) as [m|] eqn:Hq.
    + split.
      * intros [= <-]. exists q, mq. repeat split; [|constructor].
        unfold found. rewrite Hq. eauto.
      * intros (p & mt & Hi & _ & Hnb). destruct i as [|i]; [done|].
        apply none_before_tail in Hnb as [Hq' _]. congruence.
    + destruct i as [|i].
      * split.
        -- destruct (returning_entry entries t); discriminate.
        -- intros (p & mt & [= <- <-] & [m Hm] & _). congruence.
      * split.
        -- intros Hr.
           assert (returning_entry entries t = Some i) as Hr'
             by (destruct (returning_entry entries t); simpl in Hr; congruence).
           apply IH in Hr' as (p & mt & Hi & Hf & Hnb). exists p, mt.
           repeat split; try done.
           unfold none_before, no_match. simpl. now constructor.
        -- intros (p & mt & Hi & Hf & Hnb).
           apply none_before_tail in Hnb as [_ Hnb].
           assert (returning_entry entries t = Some i) as ->; [|done].
           apply IH. now exists p, mt.
Qed.

(** An entry that is found in the text bounds the entry through which the
    loop returns. *)
Lemma returning_entry_first entries t : forall i p mt,
  entries !! i = Some (p, mt) -> found p t ->
  exists j, j <= i /\ returning_entry entries t = Some j.
Proof.
  induction entries as [|[q mq] entries IH]; intros i p mt Hi Hf; [done|].
  simpl. destruct (search q t) as [m|] eqn:Hq.
  - exists 0. split; [lia|done].
  - destruct i as [|i].
    + injection Hi as -> ->. destruct Hf as [m Hm]. congruence.
    + destruct (IH i p mt Hi Hf) as (j & Hj & ->).
      exists (S j). split; [lia|done].
Qed.

End Loop.

(* ------------------------------------------------------------------ *)
(** ** The rule table *)

Lemma patterns_compile : patterns = Return table.
Proof. vm_compute. reflexivity. Qed.

Lemma table_length : length table = 28.
Proof. reflexivity. Qed.

Section Table.
Context {U : UnicodeData}.

Lemma get_model_series_eq t :
  get_model_series t = Return (first_match table t).
Proof. unfold get_model_series. now rewrite patterns_compile. Qed.

End Table.

(* ------------------------------------------------------------------ *)
(** ** [search] scans every start position *)

Section Search.
Context {U : UnicodeData}.
Implicit Types (t : str) (r : regex) (p : Pattern).

Lemma scan_sound t r : forall n pos m,
  scan t r pos n = Some m ->
  m_string m = t /\ pos <= m_start m <= pos + n /\
  sre_match t r (m_start m) Some = Some (m_end m) /\
  (forall q, pos <= q < m_start m -> sre_match t r q Some = None).
Proof.
  induction n as [|n IH]; intros pos m; simpl;
    destruct (sre_match t r pos Some) as [e|] eqn:He; intros Hm;
    try discriminate.
  - injection Hm as <-. simpl. repeat split; try done; try lia; intros; lia.
  - injection Hm as <-. simpl. repeat split; try done; try lia; intros; lia.
  - destruct (IH _ _ Hm) as (Hs & Hr & He' & Hleft).
    repeat split; try done; try lia.
    intros q Hq. destruct (decide (q = pos)) as [->|]; [done|].
    apply Hleft. lia.
Qed.

Lemma scan_complete t r : forall n pos q,
  pos <= q <= pos + n ->
  is_Some (sre_match t r q Some) ->
  is_Some (scan t r pos n).
Proof.
  induction n as [|n IH]; intros pos q Hq [e He]; simpl.
  - assert (q = pos) as -> by lia. now rewrite He.
  - destruct (sre_match t r pos Some) eqn:Hp; [done|].
    apply (IH (S pos) q); [|eauto].
    destruct (decide (q = pos)) as [->|]; [congruence | lia].
Qed.

Lemma search_sound p t m :
  search p t = Some m ->
  m_string m = t /\ m_start m <= length t /\
  match_at p t (m_start m) = Some (m_end m) /\
  (forall q, q < m_start m -> match_at p t q = None).
Proof.
  intros Hm. apply scan_sound in Hm as (Hs & Hr & He & Hleft).
  repeat split; try done; try lia. intros q Hq. apply Hleft. lia.
Qed.

Lemma found_iff p t :
  found p t <-> exists pos, pos <= length t /\ is_Some (match_at p t pos).
Proof.
  split.
  - intros [m Hm]. apply search_sound in Hm as (_ & Hr & He & _).
    exists (m_start m). split; [done|]. now rewrite He.
  - intros (pos & Hpos & Hm). apply (scan_complete _ _ _ 0 pos); [lia|done].
Qed.

Lemma not_found_iff p t :
  search p t = None <->
  forall pos, pos <= length t -> match_at p t pos = None.
Proof.
  split.
  - intros Hn pos Hpos. destruct (match_at p t pos) eqn:Hm; [|done].
    assert (found p t) as [m Hf] by (apply found_iff; exists pos; rewrite Hm; eauto).
    congruence.
  - intros Hall. destruct (search p t) as [m|] eqn:Hm; [|done].
    apply search_sound in Hm as (_ & Hr & He & _).
    rewrite Hall in He; [discriminate | done].
Qed.

(** *** A prefix before the text does not hide a match *)

Lemma backoff_mono k k' pos pos' lo : forall n,
  (forall c, is_Some (k (pos + c)) -> is_Some (k' (pos' + c))) ->
  is_Some (backoff k pos lo n) ->
  is_Some (backoff k' pos' lo n).
Proof.
  induction n as [|n IH]; intros Hk; simpl;
    destruct (_ <? lo); try done.
  - destruct (k (pos + 0)) eqn:Hk0; [|intros [? ?]; discriminate].
    intros _. destruct (Hk 0) as [e' ->]; [rewrite Hk0|]; eauto.
  - destruct (k (pos + S n)) eqn:Hk0.
    + intros _. destruct (Hk (S n)) as [e' ->]; [rewrite Hk0|]; eauto.
    + intros Hb. destruct (k' (pos' + S n)); [eauto|]. now apply IH.
Qed.

Lemma sre_match_prefix (pre t : str) r : forall pos k k',
  (forall q, is_Some (k q) -> is_Some (k' (length pre + q))) ->
  is_Some (sre_match t r pos k) ->
  is_Some (sre_match (pre ++ t) r (length pre + pos) k').
Proof.
  induction r as [|items|lo hi items|r1 IH1 r2 IH2|r1 IH1 r2 IH2|r1 IH1|back r1 IH1];
    intros pos k k' Hk; simpl.
  - apply Hk.
  - rewrite lookup_app_r by lia.
    replace (length pre + pos - length pre) with pos by lia.
    destruct (t !! pos) as [ch|]; [|done].
    destruct (charset items ch); [|done].
    replace (S (length pre + pos)) with (length pre + S pos) by lia.
    apply Hk.
  - rewrite drop_app_ge by lia.
    replace (length pre + pos - length pre) with pos by lia.
    apply backoff_mono. intros c.
    replace (length pre + pos + c) with (length pre + (pos + c)) by lia.
    apply Hk.
  - apply IH1. intros q. apply IH2, Hk.
  - intros Hm.
    destruct (sre_match t r1 pos k) eqn:H1.
    + destruct (IH1 pos k k' Hk) as [e' ->]; [rewrite H1|]; eauto.
    + destruct (sre_match (pre ++ t) r1 (length pre + pos) k'); [eauto|].
      now apply IH2 with (k := k).
  - now apply IH1.
  - destruct (pos <? back) eqn:Hb; [intros [? ?]; discriminate|].
    apply Nat.ltb_ge in Hb.
    assert ((length pre + pos <? back) = false) as -> by (apply Nat.ltb_ge; lia).
    destruct (sre_match t r1 (pos - back) Some) eqn:H1;
      [|intros [? ?]; discriminate].
    intros Hkp.
    replace (length pre + pos - back) with (length pre + (pos - back)) by lia.
    destruct (IH1 (pos - back) Some Some) as [e' ->];
      [eauto | rewrite H1; eauto |].
    now apply Hk.
Qed.

Lemma match_at_prefix pre p t pos :
  is_Some (match_at p t pos) ->
  is_Some (match_at p (pre ++ t) (length pre + pos)).
Proof. apply sre_match_prefix. eauto. Qed.

Lemma found_prefix pre p t : found p t -> found p (pre ++ t).
Proof.
  rewrite !found_iff. intros (pos & Hpos & Hm).
  exists (length pre + pos). split.
  - rewrite length_app. lia.
  - now apply match_at_prefix.
Qed.

End Search.

(* ------------------------------------------------------------------ *)
(** ** Properties of [get_model_series] *)

(** Decide [no_match] on a concrete list by running every search. *)
Ltac run_searches :=
  unfold none_before, no_match;
  repeat (apply Forall_cons; split; [vm_compute; reflexivity|]);
  constructor.

Section Classification.
Context {U : UnicodeData}.
Implicit Types (t : str) (g : gmap str (list str)).

Lemma get_model_series_at t i p mt m :
  table !! i = Some (p, mt) ->
  search p t = Some m ->
  none_before table i t ->
  get_model_series t = Return (Some (derive p mt m)).
Proof.
  intros Hi Hm Hnb. rewrite get_model_series_eq.
  f_equal. eapply first_match_at; eauto.
Qed.

Lemma get_model_series_none t :
  no_match table t -> get_model_series t = Return None.
Proof.
  intros Hn. rewrite get_model_series_eq.
  now destruct (first_match_none table t Hn) as [-> _].
Qed.

Lemma call_returns_get_model_series t :
  call_returns t (get_model_series t).
Proof.
  rewrite get_model_series_eq.
  apply call_loops with (entries := table); [apply patterns_compile|].
  apply loop_returns_first_match.
Qed.

Lemma append_to_lookup g key item :
  append_to g key item !! key = Some (g !!! key ++ [item]).
Proof. unfold append_to. apply lookup_insert_eq. Qed.

Lemma file_task_unmatched g t :
  get_model_series t = Return None ->
  file_task g t = Return (append_to g (py "Uncategorized") t).
Proof. unfold file_task. now intros ->. Qed.

Lemma returning_entry_at i p mt t :
  table !! i = Some (p, mt) ->
  returning_entry table t = Some i <-> found p t /\ none_before table i t.
Proof.
  intros Hi. rewrite returning_entry_spec. split.
  - intros (p' & mt' & Hi' & Hf & Hnb).
    assert (p' = p) as -> by congruence. done.
  - intros [Hf Hnb]. now exists p, mt.
Qed.

Lemma unrelated_name_no_match : no_match table (py "totally_unrelated_name").
Proof. unfold table. run_searches. Qed.

Lemma empty_string_no_match : no_match table [].
Proof. unfold table. run_searches. Qed.

End Classification.

(* ------------------------------------------------------------------ *)
(** ** The generic [xm_jj] entry comes first *)

Section Shadowing.
Context {U : UnicodeData}.

(** Wherever the date-qualified Y-series pattern (entry 3) matches, the
    pattern [xm_jj] (entry 1) matches as well. *)
Lemma xm_jj_before_jj_Y p1 p3 t :
  table !! 1 = Some (p1, py "xm_jj") ->
  table !! 3 = Some (p3, py "jj_Y") ->
  found p3 t -> found p1 t.
Proof.
  intros H1 H3. injection H1 as <-. injection H3 as <-.
  rewrite !found_iff. intros (pos & Hpos & [e He]).
  exists pos. split; [done|]. revert He.
  unfold match_at. cbn [code sre_match].
  repeat (match goal with
          | |- context [t !! ?i] =>
              destruct (t !! i); [|discriminate];
              destruct (charset _ _); [|discriminate]
          end).
  eauto.
Qed.

End Shadowing.

(* ------------------------------------------------------------------ *)
(** ** The compile cache does not show in the results *)

Lemma rules_patterns :
  sequence (map (fun r => entry r.1 r.2) WithCache.rules) = patterns.
Proof. reflexivity. Qed.

Lemma keep_all_lookup cache source p k q :
  WithCache.keep_all_remember cache source p !! k = Some q ->
  (k = source /\ q = p) \/ cache !! k = Some q.
Proof.
  unfold WithCache.keep_all_remember. rewrite lookup_insert_Some.
  intros [[-> ->]|[_ Hk]]; auto.
Qed.

Definition keep_all : WithCache.CachePolicy :=
  {| WithCache.remember := WithCache.keep_all_remember;
     WithCache.remember_lookup := keep_all_lookup |}.

Section Cache.
Context {C : WithCache.CachePolicy} {U : UnicodeData}.
Implicit Types (cache : gmap str Pattern) (t : str).

Lemma remember_consistent cache source p :
  WithCache.consistent cache -> compile source = Return p ->
  WithCache.consistent (WithCache.remember cache source p).
Proof.
  intros Hc Hp k q Hk.
  destruct (WithCache.remember_lookup _ _ _ _ _ Hk) as [[-> ->]|Hk']; eauto.
Qed.

Lemma compile_cached cache source :
  WithCache.consistent cache ->
  (WithCache.compile source cache).1 = compile source /\
  WithCache.consistent (WithCache.compile source cache).2.
Proof.
  intros Hc. unfold WithCache.compile.
  destruct (cache !! source) as [p|] eqn:Hl.
  - pose proof (Hc _ _ Hl) as Hp. simpl. split; [done|].
    now apply remember_consistent.
  - destruct (compile source) as [p|e] eqn:Hp; simpl; split; try done.
    now apply remember_consistent.
Qed.

Lemma reachable_consistent cache :
  WithCache.reachable cache -> WithCache.consistent cache.
Proof.
  induction 1 as [|source cache _ IH].
  - intros k q Hk. now rewrite lookup_empty in Hk.
  - now apply compile_cached.
Qed.

Lemma compile_entries_cached rs : forall cache,
  WithCache.consistent cache ->
  (WithCache.compile_entries rs cache).1
    = sequence (map (fun r => entry r.1 r.2) rs).
Proof.
  induction rs as [|[source mt] rs IH]; intros cache Hc; [done|].
  cbn [WithCache.compile_entries map sequence fst snd].
  destruct (compile_cached cache (py source) Hc) as [H1 H2].
  destruct (WithCache.compile (py source) cache) as [[p|e] cache1];
    simpl in H1, H2; unfold entry in *; rewrite <- H1; [|done].
  specialize (IH cache1 H2). cbn [mbind result_bind mret result_ret].
  destruct (WithCache.compile_entries rs cache1) as [[entries|e] cache2];
    simpl in IH; rewrite <- IH; done.
Qed.

Lemma compile_entries_reachable rs : forall cache,
  WithCache.reachable cache ->
  WithCache.reachable (WithCache.compile_entries rs cache).2.
Proof.
  induction rs as [|[source mt] rs IH]; intros cache Hr; [done|].
  cbn [WithCache.compile_entries].
  pose proof (WithCache.reachable_compile (py source) cache Hr) as H1.
  destruct (WithCache.compile (py source) cache) as [[p|e] cache1];
    simpl in H1; [|done].
  specialize (IH cache1 H1).
  now destruct (WithCache.compile_entries rs cache1) as [[entries|e] cache2].
Qed.

Lemma get_model_series_cached t cache :
  WithCache.consistent cache ->
  (WithCache.get_model_series t cache).1 = get_model_series t.
Proof.
  intros Hc. unfold WithCache.get_model_series, WithCache.patterns.
  pose proof (compile_entries_cached WithCache.rules cache Hc) as H.
  rewrite rules_patterns in H. unfold get_model_series. rewrite <- H.
  now destruct (WithCache.compile_entries WithCache.rules cache)
    as [[entries|e] cache'].
Qed.

Lemma get_model_series_reachable t cache :
  WithCache.reachable cache ->
  WithCache.reachable (WithCache.get_model_series t cache).2.
Proof.
  intros Hr. unfold WithCache.get_model_series, WithCache.patterns.
  pose proof (compile_entries_reachable WithCache.rules cache Hr) as H.
  now destruct (WithCache.compile_entries WithCache.rules cache)
    as [[entries|e] cache'].
Qed.

End Cache.

(* ------------------------------------------------------------------ *)
(** ** Claims *)

Section Claims.
Context {U : UnicodeData}.
Implicit Types (t : str) (g : gmap str (list str)).


(** C2.  For the identifier "xm_jj_Y12_0726" [get_model_series] returns
    "xm_jj", and not the "jj_Y" that the comment of line 18 gives to the
    Y-series of the dates 0725/0726/0727: the generic [xm_jj] entry
    (index 1) stands before the date-qualified Y-series entry (index 3)
    and is found in every text in which that one is found, so the loop
    never returns through the [jj_Y] entry. *)
Theorem xm_jj_Y12_0726_is_xm_jj :
  get_model_series (py "xm_jj_Y12_0726") = Return (Some (py "xm_jj")) /\
  exists p1 p3,
    table !! 1 = Some (p1, py "xm_jj") /\ pattern p1 = py "xm_jj" /\
    table !! 3 = Some (p3, py "jj_Y") /\
    pattern p3 = py "xm_jj_Y\d+_072[5-7]" /\
    found p3 (py "xm_jj_Y12_0726") /\
    forall t, found p3 t -> found p1 t.
Proof.
  split.
  - rewrite get_model_series_eq. vm_compute. reflexivity.
  - eexists _, _. split; [reflexivity|]. split; [reflexivity|].
    split; [reflexivity|]. split; [reflexivity|]. split.
    + vm_compute. eauto.
    + intros t. now apply xm_jj_before_jj_Y.
Qed.

(** C3.  When no entry's pattern is found in the text, [get_model_series]
    returns [None] without raising, and [group_tasks_by_series] files the
    task under exactly the key "Uncategorized". *)
Theorem unmatched_is_uncategorized t g :
  no_match table t ->
  get_model_series t = Return None /\
  file_task g t = Return (append_to g (py "Uncategorized") t) /\
  append_to g (py "Uncategorized") t !! py "Uncategorized"
    = Some (g !!! py "Uncategorized" ++ [t]).
Proof.
  intros Hn. pose proof (get_model_series_none t Hn) as Hg.
  repeat split; [done | now apply file_task_unmatched | apply append_to_lookup].
Qed.

(** C4.  For "jja20-3" the result is "jja20-3"; in general, when the first
    entry found in the text has the type 'full_match', the result is the
    slice of the text that its pattern matched. *)
Theorem jja20_3_full_match :
  get_model_series (py "jja20-3") = Return (Some (py "jja20-3")) /\
  forall t i p m,
    table !! i = Some (p, py "full_match") ->
    search p t = Some m ->
    none_before table i t ->
    get_model_series t = Return (Some (slice t (m_start m) (m_end m))) /\
    match_at p t (m_start m) = Some (m_end m).
Proof.
  split.
  - rewrite get_model_series_eq. vm_compute. reflexivity.
  - intros t i p m Hi Hm Hnb.
    rewrite (get_model_series_at t i p _ m Hi Hm Hnb).
    apply search_sound in Hm as (Hs & _ & He & _).
    split; [|done]. unfold derive, group0. simpl. now rewrite Hs.
Qed.

(** C5.  For "rz_dj_0420" the result is the fixed label "rz_dj" of the
    [rz_dj] entry (index 19, type 'static'); the value derived from a
    'static' entry does not depend on the match. *)
Theorem rz_dj_0420_static :
  get_model_series (py "rz_dj_0420") = Return (Some (py "rz_dj")) /\
  (exists p, table !! 19 = Some (p, py "static") /\ pattern p = py "rz_dj") /\
  forall p m m',
    derive p (py "static") m = pattern p /\
    derive p (py "static") m = derive p (py "static") m'.
Proof.
  split; [|split].
  - rewrite get_model_series_eq. vm_compute. reflexivity.
  - eexists. split; reflexivity.
  - intros p m m'. split; reflexivity.
Qed.

(** C6.  When the first entry found in the text has the type 'static', the
    result is the source text of its pattern; for "bc_0420" this is the
    raw text "bc(?=_)", look-ahead included. *)
Theorem static_returns_pattern_source :
  (forall t i p m,
     table !! i = Some (p, py "static") ->
     search p t = Some m ->
     none_before table i t ->
     get_model_series t = Return (Some (pattern p))) /\
  get_model_series (py "bc_0420") = Return (Some (py "bc(?=_)")).
Proof.
  split.
  - intros t i p m Hi Hm Hnb.
    now rewrite (get_model_series_at t i p _ m Hi Hm Hnb).
  - rewrite get_model_series_eq. vm_compute. reflexivity.
Qed.

(** C7 (amended).  Patterns are searched, not anchored.  The loop returns
    through entry [i] exactly when the pattern of entry [i] matches at
    some position of the text and no earlier entry is found in the text;
    the text is then classified by entry [i].  A match at any position
    stays a match when an arbitrary prefix is put before the text; with
    the prefix the loop returns through entry [i] or through an earlier
    entry, and through entry [i] when no earlier entry is found in the
    prefixed text. *)
Theorem searched_not_anchored i p mt t :
  table !! i = Some (p, mt) ->
  (returning_entry table t = Some i <->
     (exists pos, pos <= length t /\ is_Some (match_at p t pos)) /\
     none_before table i t) /\
  (returning_entry table t = Some i ->
     exists m, search p t = Some m /\
       get_model_series t = Return (Some (derive p mt m))) /\
  (forall pre pos,
     pos <= length t -> is_Some (match_at p t pos) ->
     is_Some (match_at p (pre ++ t) (length pre + pos)) /\
     (exists j, j <= i /\ returning_entry table (pre ++ t) = Some j) /\
     (none_before table i (pre ++ t) ->
        returning_entry table (pre ++ t) = Some i)).
Proof.
  intros Hi. split; [|split].
  - rewrite (returning_entry_at i p mt t Hi). now rewrite found_iff.
  - intros Hr. apply (returning_entry_at i p mt t Hi) in Hr as [[m Hm] Hnb].
    exists m. split; [done|]. now apply (get_model_series_at t i).
  - intros pre pos Hpos Hm.
    assert (found p (pre ++ t)) as Hf by (apply found_prefix, found_iff; eauto).
    split; [now apply match_at_prefix|]. split.
    + now apply (returning_entry_first table _ i p mt).
    + intros Hnb. now apply (returning_entry_at i p mt).
Qed.

(** C8.  Totality: for every input string [get_model_series] returns a
    value (a string or [None]) and does not raise; every pattern of the
    list compiles and the loop runs to a result. *)
Theorem get_model_series_total t :
  exists v, get_model_series t = Return v /\ call_returns t (Return v).
Proof.
  exists (first_match table t). split; [apply get_model_series_eq|].
  rewrite <- get_model_series_eq. apply call_returns_get_model_series.
Qed.

(** C9.  Determinism.  The only state that outlives a call of
    [get_model_series] is the compile cache of the [re] module.  From
    every cache that a process can hold, a call returns the value of
    [get_model_series] at the text: two calls on the same text, made at
    any two moments, return the same result, and so does a second call
    made right after the first one.  The call leaves a cache that a
    process can hold, and its effect on the cache cannot be observed:
    every later [re.compile] returns what it would have returned before
    the call. *)
Theorem get_model_series_deterministic
    {C : WithCache.CachePolicy} t cache1 cache2 :
  WithCache.reachable cache1 -> WithCache.reachable cache2 ->
  (WithCache.get_model_series t cache1).1
    = (WithCache.get_model_series t cache2).1 /\
  (WithCache.get_model_series t cache1).1 = get_model_series t /\
  (WithCache.get_model_series t (WithCache.get_model_series t cache1).2).1
    = (WithCache.get_model_series t cache1).1 /\
  WithCache.reachable (WithCache.get_model_series t cache1).2 /\
  forall source,
    (WithCache.compile source (WithCache.get_model_series t cache1).2).1
      = (WithCache.compile source cache1).1.
Proof.
  intros H1 H2.
  pose proof (get_model_series_reachable t cache1 H1) as H3.
  rewrite !get_model_series_cached by now apply reachable_consistent.
  repeat split; [done|].
  intros source.
  destruct (compile_cached _ source (reachable_consistent _ H3)) as [-> _].
  now destruct (compile_cached _ source (reachable_consistent _ H1)) as [-> _].
Qed.

(** C10.  For the empty string no pattern is found: the loop goes through
    the whole list, [get_model_series] returns [None] without raising, and
    the task would be filed under "Uncategorized"; [group_tasks_by_series]
    itself skips a blank line before classifying it. *)
Theorem empty_string_unmatched g :
  no_match table [] /\
  searched table [] = table.*1 /\
  get_model_series [] = Return None /\
  file_task g [] = Return (append_to g (py "Uncategorized") []) /\
  group_line g [] = Return g.
Proof.
  pose proof empty_string_no_match as Hn.
  destruct (first_match_none table [] Hn) as [_ Hs].
  pose proof (get_model_series_none [] Hn) as Hg.
  repeat split; try done; now apply file_task_unmatched.
Qed.

End Claims.

(* ------------------------------------------------------------------ *)
(** ** Runs on concrete identifiers *)

Section Runs.
#[local] Existing Instance ascii_tables.



(** The result for "xm_jj_Y12_0726" is "xm_jj"; it differs from "jj_Y",
    the label that the rule list means for this identifier. *)
Lemma xm_jj_Y12_0726_not_jj_Y :
  get_model_series (py "xm_jj_Y12_0726") = Return (Some (py "xm_jj")) /\
  get_model_series (py "xm_jj_Y12_0726") <> Return (Some (py "jj_Y")).
Proof. split; [vm_compute; reflexivity | vm_compute; discriminate]. Qed.

Lemma xm_jj_Y12_0726_is_xm_jj_witness :
  exists p1, table !! 1 = Some (p1, py "xm_jj") /\ found p1 (py "xm_jj_Y3_0725").
Proof.
  destruct (@xm_jj_Y12_0726_is_xm_jj ascii_tables)
    as (_ & p1 & p3 & H1 & _ & H3 & _ & _ & Hshadow).
  exists p1. split; [exact H1|]. apply Hshadow.
  injection H3 as <-. vm_compute. eauto.
Defined.

Lemma unmatched_is_uncategorized_witness :
  get_model_series (py "totally_unrelated_name") = Return None /\
  file_task ∅ (py "totally_unrelated_name")
    = Return (append_to ∅ (py "Uncategorized") (py "totally_unrelated_name")).
Proof.
  destruct (@unmatched_is_uncategorized ascii_tables
              (py "totally_unrelated_name") ∅) as (Hr & Hf & _).
  - unfold table. run_searches.
  - split; [exact Hr | exact Hf].
Defined.

Lemma jja20_3_full_match_witness :
  get_model_series (py "0628_bc01") = Return (Some (py "bc01")).
Proof.
  edestruct (proj2 (@jja20_3_full_match ascii_tables) (py "0628_bc01") 25)
    as (Hr & _).
  - reflexivity.
  - vm_compute. reflexivity.
  - unfold table. run_searches.
  - exact Hr.
Defined.

Lemma static_returns_pattern_source_witness :
  get_model_series (py "rt_bc_0626") = Return (Some (py "rt_bc")).
Proof.
  etransitivity.
  - eapply (proj1 (@static_returns_pattern_source ascii_tables)
              (py "rt_bc_0626") 26).
    + reflexivity.
    + vm_compute. reflexivity.
    + unfold table. run_searches.
  - reflexivity.
Defined.

(** The claim C7 as stated does not hold: entry 13 ([jja[\d-]+])
    classifies "jja20-3", and with the prefix "xm_jj_" its pattern is
    still found, yet the loop returns through entry 1 and the result is
    "xm_jj". *)
Lemma searched_not_anchored_stated_fails :
  exists p m',
    table !! 13 = Some (p, py "full_match") /\
    returning_entry table (py "jja20-3") = Some 13 /\
    get_model_series (py "jja20-3") = Return (Some (py "jja20-3")) /\
    search p (py "xm_jj_" ++ py "jja20-3") = Some m' /\
    returning_entry table (py "xm_jj_" ++ py "jja20-3") = Some 1 /\
    get_model_series (py "xm_jj_" ++ py "jja20-3")
      = Return (Some (py "xm_jj")) /\
    get_model_series (py "xm_jj_" ++ py "jja20-3")
      <> Return (Some (derive p (py "full_match") m')).
Proof.
  eexists _, _.
  split; [reflexivity|]. split; [vm_compute; reflexivity|].
  split; [vm_compute; reflexivity|]. split; [vm_compute; reflexivity|].
  split; [vm_compute; reflexivity|]. split; [vm_compute; reflexivity|].
  vm_compute. discriminate.
Qed.

Lemma searched_not_anchored_witness :
  returning_entry table (py "0628_" ++ py "bc01") = Some 25.
Proof.
  epose proof (@searched_not_anchored ascii_tables 25 _ _ (py "bc01") eq_refl)
    as (_ & _ & Hpre).
  destruct (Hpre (py "0628_") 0) as (_ & _ & Hr).
  - simpl. lia.
  - vm_compute. eauto.
  - apply Hr. unfold table. run_searches.
Defined.

(** From a cache that [re.compile] did not fill, the result can differ:
    with a pattern cached for "xm_jj" that matches nothing,
    "xm_jj_A01" goes to the [jj_A] entry. *)
Lemma stale_cache_changes_result :
  (@WithCache.get_model_series keep_all ascii_tables
     (py "xm_jj_A01") WithCache.stale_cache).1 = Return (Some (py "jj_A")) /\
  get_model_series (py "xm_jj_A01") = Return (Some (py "xm_jj")) /\
  ~ WithCache.consistent WithCache.stale_cache.
Proof.
  split; [vm_compute; reflexivity|]. split; [vm_compute; reflexivity|].
  intros Hc.
  specialize (Hc (py "xm_jj") _ eq_refl). vm_compute in Hc. discriminate.
Qed.

Lemma get_model_series_deterministic_witness :
  (@WithCache.get_model_series keep_all ascii_tables (py "jja20-3") ∅).1
    = (@WithCache.get_model_series keep_all ascii_tables (py "jja20-3")
         (@WithCache.compile keep_all (py "x\d+") ∅).2).1.
Proof.
  apply (@get_model_series_deterministic ascii_tables keep_all
           (py "jja20-3") ∅ (@WithCache.compile keep_all (py "x\d+") ∅).2).
  - apply WithCache.reachable_start.
  - apply WithCache.reachable_compile, WithCache.reachable_start.
Defined.

End Runs.

(* ================================================================== *)
(** * Further properties of the script *)

Import Builtins Shape.

(* ------------------------------------------------------------------ *)
(** ** The span of a match *)

Section Span.
Context {U : UnicodeData}.
Implicit Types (t : str) (r : regex) (p : Pattern).

Lemma count_le items : forall mx s,
  count items mx s <= mx /\ count items mx s <= length s.
Proof.
  induction mx as [|mx IH]; intros [|ch s]; simpl; try lia.
  destruct (charset items ch); [|lia]. destruct (IH s). lia.
Qed.

Lemma count_app_mono items : forall mx mx' s s',
  mx <= mx' -> count items mx s <= count items mx' (s ++ s').
Proof.
  induction mx as [|mx IH]; intros mx' s s' Hmx; simpl; [lia|].
  destruct s as [|ch s]; [lia|]. destruct mx' as [|mx']; [lia|]. simpl.
  destruct (charset items ch); [|lia]. specialize (IH mx' s s'). lia.
Qed.

Lemma count_stops items : forall mx s ch,
  count items mx s < mx ->
  s !! count items mx s = Some ch -> charset items ch = false.
Proof.
  induction mx as [|mx IH]; intros s ch Hlt; [lia|].
  destruct s as [|c s]; simpl in *; [discriminate|].
  destruct (charset items c) eqn:Hc.
  - simpl. apply IH. lia.
  - simpl. now intros [= <-].
Qed.

Lemma backoff_Some k pos lo : forall n e,
  backoff k pos lo n = Some e ->
  exists c, lo <= c <= n /\ k (pos + c) = Some e.
Proof.
  induction n as [|n IH]; intros e; simpl;
    destruct (_ <? lo) eqn:Hlo; try discriminate; apply Nat.ltb_ge in Hlo.
  - destruct (k (pos + 0)) eqn:Hk; [|discriminate].
    intros [= <-]. exists 0. split; [lia|done].
  - destruct (k (pos + S n)) eqn:Hk.
    + intros [= <-]. exists (S n). split; [lia|done].
    + intros Hb. destruct (IH _ Hb) as (c & Hc & Hkc).
      exists c. split; [lia|done].
Qed.

Lemma backoff_is_Some k pos lo : forall n c,
  lo <= c <= n -> is_Some (k (pos + c)) -> is_Some (backoff k pos lo n).
Proof.
  induction n as [|n IH]; intros c Hc Hk; simpl.
  - assert (c = 0) as -> by lia. assert (lo = 0) as -> by lia. simpl.
    destruct Hk as [e ->]. eauto.
  - destruct (S n <? lo) eqn:Hlo.
    { apply Nat.ltb_lt in Hlo. lia. }
    destruct (k (pos + S n)) eqn:Hkn; [eauto|].
    destruct (decide (c = S n)) as [->|Hne].
    { rewrite Hkn in Hk. now destruct Hk. }
    apply (IH c); [lia|done].
Qed.

Lemma backoff_greedy k pos lo n e :
  (forall q, k q = Some q) -> backoff k pos lo n = Some e -> e = pos + n.
Proof.
  intros Hk. destruct n; simpl; destruct (_ <? lo); try discriminate;
    rewrite Hk; now intros [= <-].
Qed.

(** A successful match hands the continuation a position that lies at
    least [min_width r] after [pos] and, when [pos] is inside the text,
    not beyond its end. *)
Lemma sre_match_span t r : forall pos k e,
  sre_match t r pos k = Some e ->
  exists q, k q = Some e /\ pos + min_width r <= q /\
            (pos <= length t -> q <= length t).
Proof.
  induction r as [|items|lo hi items|r1 IH1 r2 IH2|r1 IH1 r2 IH2|r1 IH1|back r1 IH1];
    intros pos k e; simpl.
  - intros Hk. exists pos. repeat split; try done; lia.
  - destruct (t !! pos) as [ch|] eqn:Hch; [|discriminate].
    destruct (charset items ch); [|discriminate].
    intros Hk. exists (S pos). apply lookup_lt_Some in Hch.
    repeat split; try done; lia.
  - intros Hb. apply backoff_Some in Hb as (c & Hc & Hk).
    exists (pos + c).
    pose proof (count_le items (default (length (drop pos t)) hi) (drop pos t))
      as [_ Hn].
    pose proof (length_drop t pos) as Hd.
    repeat split; try done; lia.
  - intros Hm. apply IH1 in Hm as (q1 & Hm & Hq1 & Hl1).
    apply IH2 in Hm as (q2 & Hk & Hq2 & Hl2).
    exists q2. repeat split; try done; lia.
  - destruct (sre_match t r1 pos k) eqn:H1.
    + intros [= <-]. apply IH1 in H1 as (q & ? & ? & ?).
      exists q. repeat split; try done; lia.
    + intros H2. apply IH2 in H2 as (q & ? & ? & ?).
      exists q. repeat split; try done; lia.
  - apply IH1.
  - destruct (pos <? back); [discriminate|].
    destruct (sre_match t r1 (pos - back) Some); [|discriminate].
    intros Hk. exists pos. repeat split; try done; lia.
Qed.

Lemma charset_literal c ch : charset [LITERAL c] ch = true -> ch = c.
Proof. unfold charset. simpl. rewrite orb_false_r. apply N.eqb_eq. Qed.

(** A successful match starts with the literal prefix of the pattern. *)
Lemma sre_match_literal t r : forall pos k e,
  sre_match t r pos k = Some e ->
  exists q, k q = Some e /\
            (literal_prefix r).1 `prefix_of` drop pos t /\
            pos + length (literal_prefix r).1 <= q /\
            ((literal_prefix r).2 = true ->
             q = pos + length (literal_prefix r).1).
Proof.
  induction r as [|items|lo hi items|r1 IH1 r2 IH2|r1 IH1 r2 IH2|r1 IH1|back r1 IH1];
    intros pos k e.
  - simpl. intros Hk. exists pos.
    repeat split; try done; try lia. apply prefix_nil.
  - intros Hm. pose proof Hm as Hs.
    apply sre_match_span in Hs as (q & Hk & Hq & _).
    simpl in Hq. simpl in Hm.
    destruct (t !! pos) as [ch|] eqn:Hch; [|discriminate].
    destruct (charset items ch) eqn:Hcs; [|discriminate].
    exists (S pos). split; [done|].
    destruct items as [|[c| |] [|? ?]]; simpl;
      try (repeat split; [apply prefix_nil | lia | discriminate]).
    apply charset_literal in Hcs as ->.
    repeat split; try lia.
    rewrite (drop_S _ _ _ Hch). now apply prefix_cons, prefix_nil.
  - intros Hm. apply sre_match_span in Hm as (q & Hk & Hq & _).
    exists q. simpl. repeat split; try done; try lia. apply prefix_nil.
  - simpl. intros Hm. apply IH1 in Hm as (q1 & Hm & Hp1 & Hq1 & Hx1).
    destruct (literal_prefix r1) as [l1 [|]]; simpl in *.
    + specialize (Hx1 eq_refl). subst q1.
      apply IH2 in Hm as (q2 & Hk & Hp2 & Hq2 & Hx2).
      destruct (literal_prefix r2) as [l2 x2]; simpl in *.
      exists q2. split; [done|]. rewrite length_app. repeat split; try lia.
      * destruct Hp1 as [s1 Hs1]. rewrite <- drop_drop, Hs1 in Hp2.
        rewrite drop_app_length in Hp2. destruct Hp2 as [s2 ->].
        rewrite Hs1. exists s2. now rewrite <- app_assoc.
      * intros Hx. specialize (Hx2 Hx). lia.
    + apply sre_match_span in Hm as (q2 & Hk & Hq2 & _).
      exists q2. repeat split; try done; try lia.
  - intros Hm. apply sre_match_span in Hm as (q & Hk & Hq & _).
    exists q. simpl. repeat split; try done; try lia. apply prefix_nil.
  - simpl. apply IH1.
  - simpl. destruct (pos <? back); [discriminate|].
    destruct (sre_match t r1 (pos - back) Some); [|discriminate].
    intros Hk. exists pos. repeat split; try done; try lia. apply prefix_nil.
Qed.

(** A match of a pattern that ends with an unbounded repetition stops
    where the text ends or the next character is outside the set. *)
Lemma sre_match_final_run t r : forall pos k e items,
  (forall q, k q = Some q) ->
  final_run r = Some items ->
  sre_match t r pos k = Some e ->
  forall ch, t !! e = Some ch -> charset items ch = false.
Proof.
  induction r as [|its|lo hi its|r1 IH1 r2 IH2|r1 IH1 r2 IH2|r1 IH1|back r1 IH1];
    intros pos k e items Hk Hf Hm; try discriminate.
  - destruct hi as [h|]; [discriminate|]. injection Hf as ->.
    simpl in Hm. apply (backoff_greedy _ _ _ _ _ Hk) in Hm. subst e.
    intros ch Hch.
    apply (count_stops items (length (drop pos t)) (drop pos t)).
    + apply lookup_lt_Some in Hch.
      pose proof (count_le items (length (drop pos t)) (drop pos t)) as [_ Hn].
      pose proof (length_drop t pos).
      destruct (decide (count items (length (drop pos t)) (drop pos t)
                        = length (drop pos t))); lia.
    + now rewrite lookup_drop.
  - simpl in Hm.
    assert (r2 = Empty /\ final_run r1 = Some items \/
            r2 <> Empty /\ final_run r2 = Some items) as [[-> Hf1]|[Hne Hf2]].
    { simpl in Hf. destruct r2; eauto; right; split; done. }
    + eapply IH1; [|exact Hf1|exact Hm]. intros q. simpl. apply Hk.
    + apply sre_match_span in Hm as (q & Hm & _). eapply IH2; eauto.
  - simpl in *. eauto.
Qed.

(** The span of the match [search] reports. *)
Lemma search_span p t m :
  search p t = Some m ->
  m_start m + min_width (code p) <= m_end m <= length t /\
  (literal_prefix (code p)).1 `prefix_of` slice t (m_start m) (m_end m).
Proof.
  intros Hm. apply search_sound in Hm as (_ & Hs & He & _).
  unfold match_at in He.
  pose proof He as He'. apply sre_match_span in He' as (q & [= ->] & Hq & Hl).
  apply sre_match_literal in He as (q & [= ->] & Hp & Hql & _).
  split; [lia|]. unfold slice.
  destruct Hp as [s Hs']. rewrite Hs'.
  rewrite take_app_ge by lia.
  now exists (take (m_end m - m_start m - length (literal_prefix (code p)).1) s).
Qed.

Lemma slice_middle t a b :
  a <= b <= length t -> t = take a t ++ slice t a b ++ drop b t.
Proof.
  intros Hab. unfold slice.
  rewrite <- (take_drop a t) at 1. f_equal.
  rewrite <- (take_drop (b - a) (drop a t)) at 1. f_equal.
  rewrite drop_drop. f_equal. lia.
Qed.

(** *** Text after the match *)

Lemma sre_match_suffix (t suf : str) r : forall pos k k',
  (forall q, is_Some (k q) -> is_Some (k' q)) ->
  is_Some (sre_match t r pos k) ->
  is_Some (sre_match (t ++ suf) r pos k').
Proof.
  induction r as [|items|lo hi items|r1 IH1 r2 IH2|r1 IH1 r2 IH2|r1 IH1|back r1 IH1];
    intros pos k k' Hk; simpl.
  - apply Hk.
  - destruct (t !! pos) as [ch|] eqn:Hch; [|intros [? ?]; discriminate].
    rewrite (lookup_app_l_Some _ _ _ _ Hch).
    destruct (charset items ch); [apply Hk|done].
  - intros [e He]. apply backoff_Some in He as (c & Hc & Hkc).
    apply (backoff_is_Some _ _ _ _ c); [|apply Hk; rewrite Hkc; eauto].
    split; [lia|]. etrans; [apply Hc|].
    destruct (decide (pos <= length t)) as [Hpos|Hpos].
    + rewrite drop_app_le by done. apply count_app_mono.
      destruct hi; simpl; [done|]. rewrite length_app. lia.
    + pose proof (count_le items (default (length (drop pos t)) hi) (drop pos t))
        as [_ Hn].
      pose proof (length_drop t pos). lia.
  - apply IH1. intros q. apply IH2, Hk.
  - intros Hm.
    destruct (sre_match t r1 pos k) eqn:H1.
    + destruct (IH1 pos k k' Hk) as [e' ->]; [rewrite H1|]; eauto.
    + destruct (sre_match (t ++ suf) r1 pos k'); [eauto|].
      now apply IH2 with (k := k).
  - now apply IH1.
  - destruct (pos <? back); [intros [? ?]; discriminate|].
    destruct (sre_match t r1 (pos - back) Some) eqn:H1;
      [|intros [? ?]; discriminate].
    intros Hkp.
    destruct (IH1 (pos - back) Some Some) as [e' ->];
      [eauto | rewrite H1; eauto |].
    now apply Hk.
Qed.

Lemma found_suffix suf p t : found p t -> found p (t ++ suf).
Proof.
  rewrite !found_iff. intros (pos & Hpos & Hm).
  exists pos. split.
  - rewrite length_app. lia.
  - revert Hm. apply sre_match_suffix. eauto.
Qed.

End Span.

(* ------------------------------------------------------------------ *)
(** ** What [get_model_series] returns *)

Section Returned.
Context {U : UnicodeData}.
Implicit Types (t : str) (g : gmap str (list str)).

Lemma first_match_Some entries t v :
  first_match entries t = Some v ->
  exists i p mt m,
    entries !! i = Some (p, mt) /\ search p t = Some m /\
    none_before entries i t /\ v = derive p mt m.
Proof.
  revert v. induction entries as [|[q mq] entries IH]; intros v Hv; simpl in *.
  - discriminate.
  - destruct (search q t) as [m|] eqn:Hq.
    + injection Hv as <-. exists 0, q, mq, m. repeat split; try done.
      constructor.
    + destruct (IH v Hv) as (i & p & mt & m & Hi & Hm & Hnb & ->).
      exists (S i), p, mt, m. repeat split; try done.
      unfold none_before, no_match. simpl. now constructor.
Qed.

Lemma first_match_found entries t :
  is_Some (first_match entries t) <->
  Exists (fun e => found e.1 t) entries.
Proof.
  induction entries as [|[q mq] entries IH]; simpl.
  - rewrite Exists_nil. split; [intros [? ?]; discriminate | done].
  - rewrite Exists_cons. simpl. unfold found at 1.
    destruct (search q t) eqn:Hq.
    + split; eauto.
    + rewrite IH. split; [eauto|]. intros [[? ?]|?]; [discriminate|done].
Qed.

(** The entries 3 and 4 ([xm_jj_Y...] and [xm_jj_jy...]) are never the
    first entry found: where they match, entry 1 ([xm_jj]) matches. *)
Lemma entries_3_4_shadowed i p mt t m :
  i = 3 \/ i = 4 ->
  table !! i = Some (p, mt) ->
  search p t = Some m ->
  ~ none_before table i t.
Proof.
  intros Hi Hp Hm Hnb.
  assert (exists p1 l1, table !! 1 = Some (p1, l1) /\ found p1 t)
    as (p1 & l1 & H1 & [m1 Hf]).
  { eexists _, _. split; [reflexivity|].
    assert (found p t) as Hf by (now exists m).
    revert Hf. rewrite !found_iff. intros (pos & Hpos & [e He]).
    exists pos. split; [done|]. revert He.
    destruct Hi as [-> | ->]; injection Hp as <- <-;
      unfold match_at; cbn [code sre_match];
      repeat (match goal with
              | |- context [t !! ?i] =>
                  destruct (t !! i); [|discriminate];
                  destruct (charset _ _); [|discriminate]
              end); eauto. }
  unfold none_before, no_match in Hnb.
  rewrite Forall_lookup in Hnb.
  assert (take i table !! 1 = Some (p1, l1)) as Ht.
  { rewrite lookup_take_lt by (destruct Hi; lia). exact H1. }
  specialize (Hnb 1 _ Ht). simpl in Hnb. congruence.
Qed.

Lemma elem_of_fixed_labels_nonempty v : v ∈ fixed_labels -> v <> [].
Proof.
  intros Hv ->. revert Hv. unfold fixed_labels. simpl.
  rewrite !elem_of_cons, elem_of_nil.
  intros H; repeat destruct H as [H|H]; done.
Qed.

Lemma elem_of_prefixes_nonempty l : l ∈ full_match_prefixes -> l <> [].
Proof.
  intros Hv ->. revert Hv. unfold full_match_prefixes. simpl.
  rewrite !elem_of_cons, elem_of_nil.
  intros H; repeat destruct H as [H|H]; done.
Qed.

Lemma series_shape t v :
  get_model_series t = Return (Some v) ->
  v ∈ fixed_labels \/
  exists lit pre suf,
    lit ∈ full_match_prefixes /\ lit `prefix_of` v /\ t = pre ++ v ++ suf.
Proof.
  rewrite get_model_series_eq. intros Hr.
  assert (first_match table t = Some v) as Hv by congruence. clear Hr.
  apply first_match_Some in Hv as (i & p & mt & m & Hi & Hm & Hnb & ->).
  destruct (decide (i = 3 \/ i = 4)) as [Hd|Hd].
  { destruct (entries_3_4_shadowed i p mt t m Hd Hi Hm Hnb). }
  pose proof (search_span p t m Hm) as (Hspan & Hlit).
  pose proof (slice_middle t (m_start m) (m_end m)) as Hmid.
  apply search_sound in Hm as (Hs & _).
  do 28 (destruct i as [|i];
    [ injection Hi as <- <-;
      first [ solve [left; vm_compute; repeat constructor]
            | solve [right; unfold derive, group0; simpl; rewrite Hs;
                eexists _, (take (m_start m) t), (drop (m_end m) t);
                split; [|split; [exact Hlit | apply Hmid; simpl in Hspan; lia]];
                vm_compute; repeat constructor]
            | solve [exfalso; apply Hd; lia] ]
    | ]).
  discriminate.
Qed.

Lemma series_nonempty t v :
  get_model_series t = Return (Some v) -> v <> [].
Proof.
  intros Hr.
  apply series_shape in Hr as [Hv|(lit & pre & suf & Hl & [s ->] & _)].
  - now apply elem_of_fixed_labels_nonempty.
  - apply elem_of_prefixes_nonempty in Hl. now destruct lit.
Qed.

(** X1.  What [get_model_series] can return: one of ten fixed strings, or
    a contiguous part of the task name that starts with the literal
    prefix of one of the patterns of type 'full_match'. *)
Theorem result_shape t v :
  get_model_series t = Return (Some v) ->
  v ∈ fixed_labels \/
  exists lit pre suf,
    lit ∈ full_match_prefixes /\ lit `prefix_of` v /\ t = pre ++ v ++ suf.
Proof. apply series_shape. Qed.

(** X2.  A task for which [get_model_series] returns a string is filed
    under that string: no returned series is empty, so the truth test of
    line 94 never sends a returned series to 'Uncategorized'. *)
Theorem file_task_matched g t v :
  get_model_series t = Return (Some v) ->
  v <> [] /\
  file_task g t = Return (append_to g v t) /\
  append_to g v t !! v = Some (g !!! v ++ [t]).
Proof.
  intros Hr. pose proof (series_nonempty t v Hr) as Hv.
  split; [done|]. split; [|apply append_to_lookup].
  unfold file_task. rewrite Hr. simpl. now destruct v.
Qed.

(** X3.  The labels 'jj_Y' and 'jj_jy' of the entries 3 and 4 are never
    returned, whatever the task name. *)
Theorem jj_Y_jj_jy_never_returned t :
  get_model_series t <> Return (Some (py "jj_Y")) /\
  get_model_series t <> Return (Some (py "jj_jy")).
Proof.
  split; intros Hr;
    apply series_shape in Hr as [Hv|(lit & pre & suf & Hl & Hp & _)];
    revert Hv || revert Hl Hp;
    unfold fixed_labels, full_match_prefixes; simpl;
    rewrite !elem_of_cons, elem_of_nil.
  all: intros H; repeat destruct H as [H|H]; try done.
  all: subst lit; intros [s Hs]; discriminate.
Qed.

(** X4.  A task name that contains a classified name is classified: text
    before and after it does not turn a result into [None]. *)
Theorem classified_in_context pre t suf v :
  get_model_series t = Return (Some v) ->
  exists v', get_model_series (pre ++ t ++ suf) = Return (Some v').
Proof.
  rewrite !get_model_series_eq. intros Hr.
  assert (is_Some (first_match table (pre ++ t ++ suf))) as [v' Hv'].
  { apply first_match_found.
    assert (is_Some (first_match table t)) as Hs.
    { exists v. congruence. }
    apply first_match_found in Hs.
    eapply Exists_impl; [exact Hs|].
    intros e He. now apply found_prefix, found_suffix. }
  exists v'. now rewrite Hv'.
Qed.

(** X5.  Which part of the task name an entry of type 'full_match'
    returns: the leftmost match of its pattern, taken as far as the final
    repetition of the pattern goes (every such entry but the literal
    [Lk12a20-1], index 12, ends with one). *)
Theorem full_match_leftmost_longest t i p m :
  table !! i = Some (p, py "full_match") ->
  search p t = Some m ->
  derive p (py "full_match") m = slice t (m_start m) (m_end m) /\
  (forall q, q < m_start m -> match_at p t q = None) /\
  (i <> 12 ->
   exists items, final_run (code p) = Some items /\
     forall ch, t !! m_end m = Some ch -> charset items ch = false).
Proof.
  intros Hi Hm. pose proof (search_sound p t m Hm) as (Hs & _ & He & Hleft).
  split; [unfold derive, group0; simpl; now rewrite Hs|].
  split; [exact Hleft|]. intros Hne.
  assert (exists items, final_run (code p) = Some items) as [items Hf].
  { do 28 (destruct i as [|i];
      [ vm_compute in Hi;
        first [ discriminate Hi
              | solve [destruct Hne; reflexivity]
              | solve [injection Hi as <-; simpl; eauto] ]
      | ]).
    discriminate. }
  exists items. split; [done|].
  eapply sre_match_final_run; [|exact Hf|exact He]. done.
Qed.

End Returned.

(* ------------------------------------------------------------------ *)
(** ** [group_tasks_by_series] *)

Section Strip.
Context {U : UnicodeData}.
Implicit Types (s : str).

Lemma lstrip_spec s :
  exists l, s = l ++ lstrip s /\ blank l /\
    forall c r, lstrip s = c :: r -> Py_UNICODE_ISSPACE c = false.
Proof.
  induction s as [|ch s (l & Hs & Hl & Hc)]; simpl.
  - exists []. split; [done|]. split; [apply Forall_nil_2|]. intros c r [=].
  - destruct (Py_UNICODE_ISSPACE ch) eqn:Hch.
    + exists (ch :: l). split; [simpl; now f_equal|].
      split; [now apply Forall_cons|done].
    + exists []. split; [done|]. split; [apply Forall_nil_2|].
      now intros c r [= <- <-].
Qed.

Lemma lstrip_blank s : blank s -> lstrip s = [].
Proof. induction 1 as [|ch s Hch _ IH]; simpl; [done | now rewrite Hch]. Qed.

(** [strip] removes a blank prefix and a blank suffix and leaves a string
    that neither starts nor ends with white space. *)
Lemma strip_spec s :
  exists l r, s = l ++ strip s ++ r /\ blank l /\ blank r /\
    (forall c, head (strip s) = Some c -> Py_UNICODE_ISSPACE c = false) /\
    (forall c, last (strip s) = Some c -> Py_UNICODE_ISSPACE c = false).
Proof.
  destruct (lstrip_spec s) as (l & Hs & Hl & Hc).
  destruct (lstrip_spec (reverse (lstrip s))) as (r' & Hr & Hr' & Hc').
  exists l, (reverse r').
  assert (lstrip s = strip s ++ reverse r') as Ha.
  { unfold strip. rewrite <- reverse_app, <- Hr. now rewrite reverse_involutive. }
  repeat split.
  - now rewrite <- Ha.
  - done.
  - unfold blank. now apply Forall_reverse.
  - intros c Hh. destruct (strip s) as [|c' w] eqn:Hw; [discriminate|].
    injection Hh as ->. apply (Hc c (w ++ reverse r')). now rewrite Ha.
  - intros c Hlast. unfold strip in Hlast. rewrite last_reverse in Hlast.
    destruct (lstrip (reverse (lstrip s))) as [|c' w] eqn:Hw; [discriminate|].
    injection Hlast as ->. now apply (Hc' c w).
Qed.

Lemma strip_nil_iff s : strip s = [] <-> blank s.
Proof.
  split.
  - intros Hn. destruct (strip_spec s) as (l & r & Hs & Hl & Hr & _).
    rewrite Hn in Hs. rewrite Hs. unfold blank. now apply Forall_app.
  - intros Hb. unfold strip. rewrite (lstrip_blank s Hb). reflexivity.
Qed.

End Strip.

Section Groups.
Context {U : UnicodeData}.
Implicit Types (t : str) (g : gmap str (list str)) (lines : list str).

Lemma file_task_series_of g t :
  file_task g t = Return (append_to g (series_of t) t).
Proof.
  unfold file_task, series_of. rewrite get_model_series_eq.
  destruct (first_match table t) as [[|c s]|]; reflexivity.
Qed.

Lemma append_to_lookup_ne g key item k :
  key <> k -> append_to g key item !! k = g !! k.
Proof. intros Hk. unfold append_to. now apply lookup_insert_ne. Qed.

Lemma lookup_total_Some g k l : g !! k = Some l -> g !!! k = l.
Proof. intros Hl. now rewrite lookup_total_alt, Hl. Qed.

Lemma group_lines_spec lines : forall g,
  exists g', group_lines g lines = Return g' /\
    forall k,
      g' !! k =
        let l := filter (fun t => series_of t = k) (task_names lines) in
        if decide (l = []) then g !! k else Some (g !!! k ++ l).
Proof.
  induction lines as [|line lines IH]; intros g.
  - exists g. split; [done|]. intros k. done.
  - cbn [group_lines]. unfold group_line.
    unfold task_names. rewrite fmap_cons.
    destruct (decide (strip line = [])) as [Hb|Hb].
    + rewrite bool_decide_true by done.
      rewrite filter_cons_False by (intros ?; done).
      apply IH.
    + rewrite bool_decide_false by done.
      rewrite file_task_series_of.
      destruct (IH (append_to g (series_of (strip line)) (strip line)))
        as (g' & Hg' & Hk).
      exists g'. split; [exact Hg'|]. intros k. rewrite Hk. clear Hk.
      rewrite (filter_cons_True (fun t => t <> [])) by done.
      fold (task_names lines). cbv zeta.
      destruct (decide (series_of (strip line) = k)) as [Heq|Hne].
      * rewrite filter_cons_True by done.
        rewrite (decide_False (P := _ :: _ = [])) by done. subst k.
        rewrite (lookup_total_Some _ _ _ (append_to_lookup g _ _)).
        rewrite append_to_lookup.
        destruct (decide (filter _ (task_names lines) = [])) as [->|_].
        -- done.
        -- now rewrite <- app_assoc.
      * rewrite filter_cons_False by done.
        rewrite !lookup_total_alt, (append_to_lookup_ne g _ _ k Hne).
        done.
Qed.

Lemma groups_lookup lines :
  exists g,
    group_tasks_by_series (Some lines) = Return (Some g) /\
    forall k,
      g !! k =
        let l := filter (fun t => series_of t = k) (task_names lines) in
        if decide (l = []) then None else Some l.
Proof.
  destruct (group_lines_spec lines ∅) as (g & Hg & Hk).
  exists g. split.
  - simpl. now rewrite Hg.
  - intros k. rewrite Hk. cbv zeta. now rewrite lookup_empty, lookup_total_empty.
Qed.

Lemma nonblank_grouped lines g line :
  group_tasks_by_series (Some lines) = Return (Some g) ->
  line ∈ lines -> ~ blank line ->
  exists l, g !! series_of (strip line) = Some l /\ strip line ∈ l.
Proof.
  intros Hg Hline Hb.
  destruct (groups_lookup lines) as (g' & Hg' & Hk).
  assert (g' = g) as -> by congruence.
  rewrite Hk. cbv zeta.
  assert (strip line ∈ filter (fun t => series_of t = series_of (strip line))
            (task_names lines)) as Hin.
  { apply list_elem_of_filter. split; [done|].
    apply list_elem_of_filter. split.
    - now rewrite strip_nil_iff.
    - apply list_elem_of_fmap. eauto. }
  destruct (decide _) as [He|_].
  - rewrite He in Hin. now apply elem_of_nil in Hin.
  - eauto.
Qed.

Lemma groups_empty_iff lines g :
  group_tasks_by_series (Some lines) = Return (Some g) ->
  g = ∅ <-> task_names lines = [].
Proof.
  intros Hg.
  destruct (groups_lookup lines) as (g' & Hg' & Hk).
  assert (g' = g) as -> by congruence.
  split.
  - intros ->. destruct (task_names lines) as [|t ts]; [done|].
    specialize (Hk (series_of t)). rewrite lookup_empty in Hk. cbv zeta in Hk.
    rewrite (filter_cons_True (fun t' => series_of t' = series_of t)) in Hk
      by reflexivity.
    rewrite decide_False in Hk by discriminate. discriminate.
  - intros Ht. apply map_eq. intros k. rewrite Hk, Ht, lookup_empty. done.
Qed.

(** X6.  [group_tasks_by_series] on an existing file: the group of a
    series holds the task names of that series in the order of the file,
    each as often as it occurs, and a series without a task name has no
    group. *)
Theorem group_tasks_by_series_spec lines :
  exists g,
    group_tasks_by_series (Some lines) = Return (Some g) /\
    forall k,
      g !! k =
        let l := filter (fun t => series_of t = k) (task_names lines) in
        if decide (l = []) then None else Some l.
Proof. apply groups_lookup. Qed.

(** X7.  What the groups hold: every stored task name is the stripped
    form of a line of the file, is not empty, neither starts nor ends
    with white space, and sits in the group of its own series; no group
    is empty. *)
Theorem groups_hold_task_names lines g k l :
  group_tasks_by_series (Some lines) = Return (Some g) ->
  g !! k = Some l ->
  l <> [] /\
  forall t, t ∈ l ->
    series_of t = k /\ t <> [] /\
    (exists line, line ∈ lines /\ t = strip line) /\
    (forall c, head t = Some c -> Py_UNICODE_ISSPACE c = false) /\
    (forall c, last t = Some c -> Py_UNICODE_ISSPACE c = false).
Proof.
  intros Hg Hl.
  destruct (groups_lookup lines) as (g' & Hg' & Hk).
  assert (g' = g) as -> by congruence.
  rewrite Hk in Hl. cbv zeta in Hl.
  destruct (decide _) as [|Hne]; [discriminate|]. injection Hl as <-.
  split; [done|]. intros t Ht.
  apply list_elem_of_filter in Ht as [Hs Ht].
  apply list_elem_of_filter in Ht as [Hn Ht].
  apply list_elem_of_fmap in Ht as (line & -> & Hline).
  destruct (strip_spec line) as (_ & _ & _ & _ & _ & Hh & Hla).
  repeat split; eauto.
Qed.

(** X8.  Every line that is not blank is kept: its stripped form is in
    the group of its series. *)
Theorem nonblank_line_is_grouped lines g line :
  group_tasks_by_series (Some lines) = Return (Some g) ->
  line ∈ lines -> ~ blank line ->
  exists l, g !! series_of (strip line) = Some l /\ strip line ∈ l.
Proof. apply nonblank_grouped. Qed.

End Groups.

(* ------------------------------------------------------------------ *)
(** ** The report: [write_groups_to_markdown] and [main] *)

Section SortedFacts.
Context {A K : Type} (lt : K -> K -> bool) (key : A -> K).

Lemma insort_Permutation x l : insort lt key x l ≡ₚ x :: l.
Proof.
  induction l as [|y l IH]; simpl; [done|].
  destruct (lt (key y) (key x)); [|done].
  rewrite IH. apply Permutation_swap.
Qed.

Lemma sorted_Permutation l : sorted lt key l ≡ₚ l.
Proof.
  induction l as [|x l IH]; simpl; [done|].
  now rewrite insort_Permutation, IH.
Qed.

Hypothesis lt_asym : forall a b, lt a b = true -> lt b a = false.
Hypothesis lt_negtrans :
  forall a b c, lt a b = false -> lt b c = false -> lt a c = false.

Lemma insort_StronglySorted x l :
  StronglySorted (fun a b => lt (key b) (key a) = false) l ->
  StronglySorted (fun a b => lt (key b) (key a) = false) (insort lt key x l).
Proof.
  induction 1 as [|y l Hl IH Hy]; simpl.
  - repeat constructor.
  - destruct (lt (key y) (key x)) eqn:Hyx.
    + constructor; [done|].
      rewrite insort_Permutation. constructor; [|done].
      now apply lt_asym.
    + constructor; [now constructor|].
      constructor; [done|].
      eapply Forall_impl; [exact Hy|]. intros z Hz. simpl in *.
      now apply (lt_negtrans _ (key y)).
Qed.

Lemma sorted_StronglySorted l :
  StronglySorted (fun a b => lt (key b) (key a) = false) (sorted lt key l).
Proof.
  induction l as [|x l IH]; simpl; [constructor|].
  now apply insort_StronglySorted.
Qed.

End SortedFacts.

Section StrOrder.

Lemma str_lt_asym a : forall b, str_lt a b = true -> str_lt b a = false.
Proof.
  induction a as [|x a IH]; intros [|y b]; simpl; try done.
  destruct (x <? y)%N eqn:Hxy, (y <? x)%N eqn:Hyx; try done.
  - apply N.ltb_lt in Hxy, Hyx. lia.
  - apply IH.
Qed.

Lemma str_lt_total a : forall b,
  a <> b -> str_lt a b = false -> str_lt b a = true.
Proof.
  induction a as [|x a IH]; intros [|y b]; simpl; try done.
  destruct (x <? y)%N eqn:Hxy, (y <? x)%N eqn:Hyx; try done.
  intros Hne. apply IH. intros ->.
  apply N.ltb_ge in Hxy, Hyx. apply Hne. f_equal. lia.
Qed.

Lemma str_lt_trans a : forall b c,
  str_lt a b = true -> str_lt b c = true -> str_lt a c = true.
Proof.
  induction a as [|x a IH]; intros [|y b] [|z c]; simpl; try done.
  destruct (x <? y)%N eqn:Hxy, (y <? x)%N eqn:Hyx,
           (y <? z)%N eqn:Hyz, (z <? y)%N eqn:Hzy,
           (x <? z)%N eqn:Hxz, (z <? x)%N eqn:Hzx; try done;
    rewrite ?N.ltb_lt, ?N.ltb_ge in *; try lia.
  apply IH.
Qed.

Lemma str_lt_negtrans a b c :
  str_lt a b = false -> str_lt b c = false -> str_lt a c = false.
Proof.
  intros Hab Hbc. destruct (str_lt a c) eqn:Hac; [|done].
  destruct (decide (a = b)) as [->|Hne1]; [congruence|].
  destruct (decide (b = c)) as [->|Hne2]; [congruence|].
  pose proof (str_lt_total a b Hne1 Hab) as Hba.
  pose proof (str_lt_total b c Hne2 Hbc) as Hcb.
  pose proof (str_lt_trans _ _ _ Hcb Hba) as Hca.
  apply str_lt_asym in Hca. congruence.
Qed.

Lemma tuple_lt_asym a b : tuple_lt a b = true -> tuple_lt b a = false.
Proof.
  destruct a as [[|] a], b as [[|] b]; unfold tuple_lt; simpl; try done;
    apply str_lt_asym.
Qed.

Lemma tuple_lt_negtrans a b c :
  tuple_lt a b = false -> tuple_lt b c = false -> tuple_lt a c = false.
Proof.
  destruct a as [[|] a], b as [[|] b], c as [[|] c]; unfold tuple_lt; simpl;
    try done; apply str_lt_negtrans.
Qed.

Lemma StronglySorted_lookup {A} (R : A -> A -> Prop) (l : list A) i j a b :
  StronglySorted R l -> i < j -> l !! i = Some a -> l !! j = Some b -> R a b.
Proof.
  intros Hs. revert i j. induction Hs as [|x l Hs IH Hx]; intros i j Hij Ha Hb.
  - discriminate.
  - destruct i as [|i], j as [|j]; simpl in *; try lia.
    + injection Ha as ->. rewrite Forall_forall in Hx.
      apply Hx. eapply list_elem_of_lookup_2, Hb.
    + apply (IH i j); [lia|done..].
Qed.

End StrOrder.

Section Markdown.
Implicit Types (g : gmap str (list str)).

Lemma sorted_series_Permutation g :
  sorted_series g ≡ₚ (map_to_list g).*1.
Proof. apply sorted_Permutation. Qed.

Lemma elem_of_sorted_series g k :
  k ∈ sorted_series g <-> is_Some (g !! k).
Proof.
  rewrite sorted_series_Permutation, list_elem_of_fmap. split.
  - intros ([k' l] & -> & Hin). apply elem_of_map_to_list in Hin. eauto.
  - intros [l Hl]. exists (k, l). split; [done|]. now apply elem_of_map_to_list.
Qed.

(** X9.  The series headings of the report: every series of the
    dictionary once, the series other than 'Uncategorized' in ascending
    order, 'Uncategorized' after all of them. *)
Theorem sorted_series_order g :
  (forall k, k ∈ sorted_series g <-> is_Some (g !! k)) /\
  NoDup (sorted_series g) /\
  forall i j a b,
    i < j -> sorted_series g !! i = Some a -> sorted_series g !! j = Some b ->
    a <> py "Uncategorized" /\
    (b <> py "Uncategorized" -> str_lt a b = true).
Proof.
  assert (NoDup (sorted_series g)) as Hnd.
  { rewrite sorted_series_Permutation. apply NoDup_fst_map_to_list. }
  split; [apply elem_of_sorted_series|]. split; [done|].
  intros i j a b Hij Ha Hb.
  pose proof (sorted_StronglySorted tuple_lt
    (fun x => (bool_decide (x = py "Uncategorized"), x))
    tuple_lt_asym tuple_lt_negtrans (map_to_list g).*1) as Hs.
  fold (sorted_series g) in Hs.
  pose proof (StronglySorted_lookup _ _ i j a b Hs Hij Ha Hb) as Hab.
  cbv beta in Hab.
  assert (a <> b) as Hne.
  { intros ->. pose proof (NoDup_lookup _ i j b Hnd Ha Hb). lia. }
  unfold tuple_lt in Hab. cbn [fst snd] in Hab.
  destruct (decide (a = py "Uncategorized")) as [Ha'|Ha'];
    destruct (decide (b = py "Uncategorized")) as [Hb'|Hb'].
  - congruence.
  - rewrite (bool_decide_true (a = _)) in Hab by done.
    rewrite (bool_decide_false (b = _)) in Hab by done.
    discriminate.
  - done.
  - split; [done|]. intros _.
    rewrite (bool_decide_false (a = _)) in Hab by done.
    rewrite (bool_decide_false (b = _)) in Hab by done.
    apply str_lt_total; [done|exact Hab].
Qed.

(** X10.  The bullets of a section: the task names of the group, each as
    often as in the group, in ascending order. *)
Theorem section_tasks_order g series :
  sorted str_lt id (g !!! series) ≡ₚ g !!! series /\
  forall i j a b,
    i < j -> sorted str_lt id (g !!! series) !! i = Some a ->
    sorted str_lt id (g !!! series) !! j = Some b ->
    str_lt b a = false.
Proof.
  split; [apply sorted_Permutation|].
  intros i j a b Hij Ha Hb.
  pose proof (sorted_StronglySorted str_lt id str_lt_asym str_lt_negtrans
                (g !!! series)) as Hs.
  apply (StronglySorted_lookup _ _ i j a b Hs Hij Ha Hb).
Qed.

End Markdown.

Section MainRun.
Context {U : UnicodeData}.
Implicit Types (g : gmap str (list str)) (lines : list str).

Lemma main_cases abspath input_file output_file content :
  exists r,
    main abspath input_file output_file content = Return r /\
    match content with
    | None =>
        output r = None /\
        stdout r = [py "Error: Input file '" ++ input_file ++ py "' not found."]
    | Some lines =>
        if decide (task_names lines = []) then
          output r = None /\ stdout r = []
        else
          exists g,
            group_tasks_by_series (Some lines) = Return (Some g) /\
            output r = Some (write_groups_to_markdown g) /\
            stdout r =
              [py "Successfully grouped tasks from '" ++ input_file ++
               py "' and created '" ++ abspath output_file ++ py "'"]
    end.
Proof.
  destruct content as [lines|].
  - destruct (groups_lookup lines) as (g & Hg & _).
    pose proof (groups_empty_iff lines g Hg) as He.
    unfold main. rewrite Hg.
    destruct (decide (task_names lines = [])) as [Ht|Ht].
    + eexists. split.
      * cbn [mbind result_bind]. rewrite bool_decide_true by (now apply He).
        reflexivity.
      * split; reflexivity.
    + eexists. split.
      * cbn [mbind result_bind]. rewrite bool_decide_false by (now rewrite He).
        reflexivity.
      * exists g. repeat split.
  - eexists. split; [reflexivity|]. split; reflexivity.
Qed.

(** X11.  What [main] does with its input file.  Missing file: the error
    message and no output file.  A file without a task name (no line, or
    blank lines only): no output file and no message.  Otherwise the
    markdown of the groups is written and the success message printed. *)
Theorem main_output abspath input_file output_file content :
  exists r,
    main abspath input_file output_file content = Return r /\
    match content with
    | None =>
        output r = None /\
        stdout r = [py "Error: Input file '" ++ input_file ++ py "' not found."]
    | Some lines =>
        if decide (task_names lines = []) then
          output r = None /\ stdout r = []
        else
          exists g,
            group_tasks_by_series (Some lines) = Return (Some g) /\
            output r = Some (write_groups_to_markdown g) /\
            stdout r =
              [py "Successfully grouped tasks from '" ++ input_file ++
               py "' and created '" ++ abspath output_file ++ py "'"]
    end.
Proof. apply main_cases. Qed.

Lemma concat_fmap_split {A} (f : A -> str) (l : list A) x :
  x ∈ l -> exists l1 l2, l = l1 ++ x :: l2 /\
    concat (f <$> l) = concat (f <$> l1) ++ f x ++ concat (f <$> l2).
Proof.
  intros Hx. apply list_elem_of_split in Hx as (l1 & l2 & ->).
  exists l1, l2. split; [done|].
  now rewrite fmap_app, fmap_cons, concat_app.
Qed.

(** X12.  The report lists every task: the stripped form of a line that
    is not blank stands as a bullet in the section of its series, after
    the heading of that section and bullets only. *)
Theorem report_lists_every_task abspath input_file output_file lines line r :
  main abspath input_file output_file (Some lines) = Return r ->
  line ∈ lines -> ~ blank line ->
  exists text before bullets after,
    output r = Some text /\
    text = before ++
           py "## Series: " ++ series_of (strip line) ++ newline ++ newline ++
           concat ((fun task_name => py "- `" ++ task_name ++ py "`" ++ newline)
                     <$> bullets) ++
           (py "- `" ++ strip line ++ py "`" ++ newline) ++
           after.
Proof.
  intros Hmain Hline Hb.
  destruct (main_cases abspath input_file output_file (Some lines))
    as (r' & Hr' & Hspec).
  assert (r' = r) as -> by congruence.
  assert (strip line ∈ task_names lines) as Hin.
  { apply list_elem_of_filter. split; [now rewrite strip_nil_iff|].
    apply list_elem_of_fmap. eauto. }
  destruct (decide (task_names lines = [])) as [He|_].
  { rewrite He in Hin. now apply elem_of_nil in Hin. }
  destruct Hspec as (g & Hg & Hout & _).
  destruct (nonblank_grouped lines g line Hg Hline Hb) as (l & Hl & Htl).
  assert (series_of (strip line) ∈ sorted_series g) as Hk.
  { apply elem_of_sorted_series. eauto. }
  unfold write_groups_to_markdown in Hout.
  set (bullet := fun task_name : str =>
         py "- `" ++ task_name ++ py "`" ++ newline) in *.
  set (section := fun series : str =>
         py "## Series: " ++ series ++ newline ++ newline ++
         concat (bullet <$> sorted str_lt id (g !!! series)) ++ newline) in *.
  destruct (concat_fmap_split section _ _ Hk) as (ks1 & ks2 & _ & Hc).
  assert (strip line ∈ sorted str_lt id l) as Hs
    by (now rewrite sorted_Permutation).
  destruct (concat_fmap_split bullet _ _ Hs) as (b1 & b2 & _ & Hc').
  exists (py "# Model Series Groups" ++ newline ++ newline ++
            concat (section <$> sorted_series g)),
    (py "# Model Series Groups" ++ newline ++ newline ++
       concat (section <$> ks1)),
    b1,
    (concat (bullet <$> b2) ++ newline ++ concat (section <$> ks2)).
  split; [exact Hout|].
  rewrite Hc. unfold section at 2.
  rewrite (lookup_total_Some _ _ _ Hl), Hc'.
  unfold bullet at 2.
  rewrite <- !app_assoc. reflexivity.
Qed.

End MainRun.

(* ------------------------------------------------------------------ *)
(** ** The report and the order of the input lines *)

Section LineOrder.
Context {U : UnicodeData}.
Implicit Types (g : gmap str (list str)) (lines : list str).

Lemma sorted_ext {A K} (lt : K -> K -> bool) (key : A -> K) (l1 l2 : list A) :
  (forall a b, lt a b = true -> lt b a = false) ->
  (forall a b c, lt a b = false -> lt b c = false -> lt a c = false) ->
  (forall a b, lt (key a) (key b) = false -> lt (key b) (key a) = false -> a = b) ->
  l1 ≡ₚ l2 -> sorted lt key l1 = sorted lt key l2.
Proof.
  intros Hasym Hneg Hanti Hp.
  apply (StronglySorted_unique_strong (fun a b => lt (key b) (key a) = false)).
  - intros x1 x2 _ _ H1 H2. now apply Hanti.
  - now apply sorted_StronglySorted.
  - now apply sorted_StronglySorted.
  - now rewrite !sorted_Permutation.
Qed.

Lemma str_lt_antisym a b :
  str_lt a b = false -> str_lt b a = false -> a = b.
Proof.
  intros Hab Hba. destruct (decide (a = b)) as [|Hne]; [done|].
  pose proof (str_lt_total a b Hne Hab). congruence.
Qed.

Lemma series_key_antisym (a b : str) :
  tuple_lt (bool_decide (a = py "Uncategorized"), a)
           (bool_decide (b = py "Uncategorized"), b) = false ->
  tuple_lt (bool_decide (b = py "Uncategorized"), b)
           (bool_decide (a = py "Uncategorized"), a) = false ->
  a = b.
Proof.
  unfold tuple_lt. cbn [fst snd].
  destruct (bool_decide (a = py "Uncategorized")),
           (bool_decide (b = py "Uncategorized")); simpl; try done.
  - intros H1 H2. now apply str_lt_antisym.
  - intros H1 H2. now apply str_lt_antisym.
Qed.

Lemma write_groups_to_markdown_ext g g' :
  (forall k, is_Some (g !! k) <-> is_Some (g' !! k)) ->
  (forall k, g !!! k ≡ₚ g' !!! k) ->
  write_groups_to_markdown g = write_groups_to_markdown g'.
Proof.
  intros Hdom Hperm.
  assert (sorted_series g = sorted_series g') as Hs.
  { apply sorted_ext.
    - apply tuple_lt_asym.
    - apply tuple_lt_negtrans.
    - intros a b H1 H2. now apply series_key_antisym.
    - apply NoDup_Permutation; try apply NoDup_fst_map_to_list.
      intros k. rewrite <- !sorted_series_Permutation, !elem_of_sorted_series.
      apply Hdom. }
  unfold write_groups_to_markdown. rewrite <- Hs. do 4 f_equal.
  apply list_fmap_ext. intros i series _. do 7 f_equal.
  apply sorted_ext.
  - apply str_lt_asym.
  - apply str_lt_negtrans.
  - intros a b H1 H2. now apply str_lt_antisym.
  - apply Hperm.
Qed.

Lemma task_names_Permutation lines lines' :
  lines ≡ₚ lines' -> task_names lines ≡ₚ task_names lines'.
Proof. intros Hp. unfold task_names. now rewrite Hp. Qed.

(** X13.  The report does not depend on the order of the lines of the
    input file: two files with the same lines in a different order make
    [main] print the same and write the same text. *)
Theorem report_independent_of_line_order abspath input_file output_file
    lines lines' :
  lines ≡ₚ lines' ->
  main abspath input_file output_file (Some lines)
    = main abspath input_file output_file (Some lines').
Proof.
  intros Hp. pose proof (task_names_Permutation _ _ Hp) as Ht.
  destruct (main_cases abspath input_file output_file (Some lines))
    as ([so oo] & -> & H1).
  destruct (main_cases abspath input_file output_file (Some lines'))
    as ([so' oo'] & -> & H2).
  cbn [output stdout] in H1, H2.
  destruct (decide (task_names lines = [])) as [He|He];
    destruct (decide (task_names lines' = [])) as [He'|He'].
  - destruct H1 as [-> ->], H2 as [-> ->]. done.
  - rewrite He in Ht. now apply Permutation_nil in Ht.
  - rewrite He' in Ht. now apply Permutation_nil_r in Ht.
  - destruct H1 as (g & Hg & -> & ->), H2 as (g' & Hg' & -> & ->).
    do 3 f_equal.
    destruct (groups_lookup lines) as (g1 & Hg1 & Hk).
    destruct (groups_lookup lines') as (g2 & Hg2 & Hk').
    assert (g1 = g) as -> by congruence.
    assert (g2 = g') as -> by congruence.
    assert (forall k, filter (fun t => series_of t = k) (task_names lines)
                      ≡ₚ filter (fun t => series_of t = k) (task_names lines'))
      as Hf by (intros k; now rewrite Ht).
    apply write_groups_to_markdown_ext.
    + intros k. rewrite Hk, Hk'. cbv zeta. specialize (Hf k).
      destruct (decide (filter _ (task_names lines) = [])) as [E|E];
        destruct (decide (filter _ (task_names lines') = [])) as [E'|E'];
        try done.
      * rewrite E in Hf. now apply Permutation_nil in Hf.
      * rewrite E' in Hf. now apply Permutation_nil_r in Hf.
    + intros k. rewrite !lookup_total_alt, Hk, Hk'. cbv zeta.
      specialize (Hf k).
      destruct (decide (filter _ (task_names lines) = [])) as [E|E];
        destruct (decide (filter _ (task_names lines') = [])) as [E'|E'];
        simpl; try done.
      * rewrite E in Hf. now apply Permutation_nil in Hf.
      * rewrite E' in Hf. now apply Permutation_nil_r in Hf.
Qed.

End LineOrder.

(* ------------------------------------------------------------------ *)
(** ** [format_entry_to_table] of modelFormatResult.py *)

Import ModelFormatResult Layout.

Section SortedStable.
Context {A K : Type} `{EqDecision K} (lt : K -> K -> bool) (key : A -> K).
Hypothesis lt_irrefl : forall a, lt a a = false.

Lemma filter_insort k x l :
  filter (fun y => key y = k) (insort lt key x l)
  = filter (fun y => key y = k) (x :: l).
Proof.
  induction l as [|y l IH]; simpl; [done|].
  destruct (lt (key y) (key x)) eqn:Hyx; [|done].
  assert (key y <> key x) as Hne.
  { intros Heq. rewrite Heq, lt_irrefl in Hyx. discriminate. }
  rewrite (filter_cons _ y), IH, !(filter_cons _ x), (filter_cons _ y).
  destruct (decide (key y = k)), (decide (key x = k)); congruence.
Qed.

Lemma filter_sorted k l :
  filter (fun y => key y = k) (sorted lt key l)
  = filter (fun y => key y = k) l.
Proof.
  induction l as [|x l IH]; simpl; [done|].
  rewrite filter_insort, !(filter_cons _ x), IH. done.
Qed.

Lemma filter_sorted_reverse k l :
  filter (fun y => key y = k) (sorted_reverse lt key l)
  = filter (fun y => key y = k) l.
Proof.
  unfold sorted_reverse.
  now rewrite filter_reverse, filter_sorted, filter_reverse, reverse_involutive.
Qed.

End SortedStable.

Section EntryTable.
Implicit Types (e : entry).

Lemma Z_ltb_asym a b : (a <? b)%Z = true -> (b <? a)%Z = false.
Proof. rewrite Z.ltb_lt, Z.ltb_ge. lia. Qed.

Lemma Z_ltb_negtrans a b c :
  (a <? b)%Z = false -> (b <? c)%Z = false -> (a <? c)%Z = false.
Proof. rewrite !Z.ltb_ge. lia. Qed.

Lemma sorted_areas_Permutation e : sorted_areas e ≡ₚ areaCountMap e.
Proof.
  unfold sorted_areas, sorted_reverse.
  now rewrite reverse_Permutation, sorted_Permutation, reverse_Permutation.
Qed.

(** X14.  The area rows of the table: the areas of the entry, each once,
    by descending count; areas of equal count keep the order they have
    in the entry. *)
Theorem sorted_areas_order e :
  sorted_areas e ≡ₚ areaCountMap e /\
  (forall i j a b,
     i < j -> sorted_areas e !! i = Some a -> sorted_areas e !! j = Some b ->
     (b.2 <= a.2)%Z) /\
  (forall c,
     filter (fun item => item.2 = c) (sorted_areas e)
     = filter (fun item => item.2 = c) (areaCountMap e)).
Proof.
  split; [|split].
  - apply sorted_areas_Permutation.
  - intros i j a b Hij Ha Hb. unfold sorted_areas, sorted_reverse in *.
    apply reverse_lookup_Some in Ha as [Ha Hi].
    apply reverse_lookup_Some in Hb as [Hb Hj].
    pose proof (sorted_StronglySorted Z.ltb snd Z_ltb_asym Z_ltb_negtrans
                  (reverse (areaCountMap e))) as Hs.
    set (n := length (sorted Z.ltb snd (reverse (areaCountMap e)))) in *.
    assert (n - S j < n - S i) as Hlt by lia.
    pose proof (StronglySorted_lookup _ _ _ _ b a Hs Hlt Hb Ha) as Hba.
    cbv beta in Hba. apply Z.ltb_ge in Hba. exact Hba.
  - intros c. apply (filter_sorted_reverse Z.ltb snd). apply Z.ltb_irrefl.
Qed.

Lemma length_ljust s width : length (ljust s width) = length s `max` width.
Proof. unfold ljust. rewrite length_app, length_replicate. lia. Qed.

Lemma length_row k v :
  length (row k v) = 7 + (length k `max` key_width) + (length v `max` value_width).
Proof.
  unfold row. rewrite !length_app, !length_ljust.
  change (length (py "| ")) with 2. change (length (py " | ")) with 3.
  change (length (py " |")) with 2. lia.
Qed.

Lemma length_row_52 k v :
  length (row k v) = 52 <-> length k <= key_width /\ length v <= value_width.
Proof. rewrite length_row. unfold key_width, value_width. lia. Qed.

(** X15.  The layout of the table: nine lines and one per area, none
    shorter than 52 characters; a text longer than its column is not cut
    but makes its line longer, so all lines have the same length, 52,
    exactly when every text fits its column. *)
Theorem table_layout e :
  length (table_lines e) = 9 + length (areaCountMap e) /\
  Forall (fun line => 52 <= length line) (table_lines e) /\
  (Forall (fun line => length line = 52) (table_lines e) <-> fits e).
Proof.
  assert (length rule = 52) as Hrule by reflexivity.
  split; [|split].
  - unfold table_lines. rewrite length_app, length_fmap.
    now rewrite sorted_areas_Permutation.
  - unfold table_lines. apply Forall_app. split.
    + repeat (apply Forall_cons; split;
               [first [rewrite Hrule; lia
                      | rewrite length_row; unfold key_width, value_width; lia]|]).
      apply Forall_nil_2.
    + apply Forall_fmap, Forall_forall. intros item _. unfold compose.
      rewrite length_row. unfold key_width, value_width. lia.
  - assert (Forall ((fun line => length line = 52) ∘
                      (fun item => row item.1 (str_int item.2)))
                   (sorted_areas e)
            <-> Forall (fun item => length item.1 <= key_width /\
                          length (str_int item.2) <= value_width)
                  (areaCountMap e)) as Hareas.
    { rewrite <- (sorted_areas_Permutation e), !Forall_forall.
      split; intros H x Hx; specialize (H x Hx); unfold compose in *;
        now apply length_row_52. }
    unfold table_lines, fits. rewrite Forall_app, Forall_fmap, Hareas.
    rewrite !Forall_cons, !Forall_nil, !length_row_52, Hrule.
    change (length (py "companyId")) with 9.
    change (length (py "industryId")) with 10.
    change (length (py "startDate")) with 9.
    change (length (py "endDate")) with 7.
    change (length (py "modelName")) with 9.
    change (length (py "countNum")) with 8.
    change (length (py "area")) with 4.
    change (length (py "count")) with 5.
    unfold key_width, value_width. intuition lia.
Qed.

End EntryTable.

(* ------------------------------------------------------------------ *)
(** ** Runs of the further properties on concrete inputs *)

Section MoreRuns.
#[local] Existing Instance ascii_tables.

(** A small input file: a padded line, an empty and a blank line, and
    task names of four series, one of them twice. *)
Definition sample_lines : list str :=
  [py "  xm_jj_A01_x210 "; []; py "   "; py "bc_0420"; py "jja20-3";
   py "notes"; py "jja20-3"].

Definition sample_groups : gmap str (list str) :=
  <[py "Uncategorized" := [py "notes"]]>
    (<[py "jja20-3" := [py "jja20-3"; py "jja20-3"]]>
       (<[py "bc(?=_)" := [py "bc_0420"]]>
          (<[py "xm_jj" := [py "xm_jj_A01_x210"]]> ∅))).

Lemma result_shape_witness :
  py "bc01" ∈ fixed_labels \/
  exists lit pre suf,
    lit ∈ full_match_prefixes /\ lit `prefix_of` py "bc01" /\
    py "0628_bc01" = pre ++ py "bc01" ++ suf.
Proof.
  apply (@result_shape ascii_tables (py "0628_bc01") (py "bc01")).
  vm_compute. reflexivity.
Defined.

Lemma file_task_matched_witness :
  file_task ∅ (py "jja20-3")
    = Return (append_to ∅ (py "jja20-3") (py "jja20-3")).
Proof.
  apply (@file_task_matched ascii_tables ∅ (py "jja20-3") (py "jja20-3")).
  vm_compute. reflexivity.
Defined.

Lemma jj_Y_jj_jy_never_returned_witness :
  get_model_series (py "xm_jj_Y12_0726") <> Return (Some (py "jj_Y")).
Proof.
  apply (@jj_Y_jj_jy_never_returned ascii_tables (py "xm_jj_Y12_0726")).
Defined.

Lemma classified_in_context_witness :
  exists v',
    get_model_series (py "2024_" ++ py "jja20-3" ++ py "_final")
      = Return (Some v').
Proof.
  apply (@classified_in_context ascii_tables
           (py "2024_") (py "jja20-3") (py "_final") (py "jja20-3")).
  vm_compute. reflexivity.
Defined.

Lemma full_match_leftmost_longest_witness :
  exists p items,
    table !! 13 = Some (p, py "full_match") /\
    final_run (code p) = Some items /\
    forall ch, py "a_jja20-3x" !! 9 = Some ch -> charset items ch = false.
Proof.
  edestruct (@full_match_leftmost_longest ascii_tables (py "a_jja20-3x") 13)
    as (_ & _ & Hrun).
  - reflexivity.
  - vm_compute. reflexivity.
  - destruct Hrun as (items & Hf & Hstop); [lia|].
    eexists _, items. split; [reflexivity|]. split; [exact Hf | exact Hstop].
Defined.

Lemma groups_hold_task_names_witness :
  [py "jja20-3"; py "jja20-3"] <> [] /\
  forall t, t ∈ [py "jja20-3"; py "jja20-3"] ->
    series_of t = py "jja20-3" /\ t <> [] /\
    (exists line, line ∈ sample_lines /\ t = strip line) /\
    (forall c, head t = Some c -> Py_UNICODE_ISSPACE c = false) /\
    (forall c, last t = Some c -> Py_UNICODE_ISSPACE c = false).
Proof.
  apply (@groups_hold_task_names ascii_tables sample_lines sample_groups).
  - vm_compute. reflexivity.
  - vm_compute. reflexivity.
Defined.

Lemma nonblank_line_is_grouped_witness :
  exists l,
    sample_groups !! series_of (strip (py "  xm_jj_A01_x210 ")) = Some l /\
    strip (py "  xm_jj_A01_x210 ") ∈ l.
Proof.
  apply (@nonblank_line_is_grouped ascii_tables sample_lines sample_groups).
  - vm_compute. reflexivity.
  - apply list_elem_of_here.
  - intros Hb. apply Forall_inv_tail, Forall_inv_tail, Forall_inv in Hb.
    vm_compute in Hb. discriminate.
Defined.

Lemma sorted_series_order_witness :
  py "bc(?=_)" <> py "Uncategorized" /\
  (py "jja20-3" <> py "Uncategorized" ->
   str_lt (py "bc(?=_)") (py "jja20-3") = true).
Proof.
  apply (proj2 (proj2 (sorted_series_order sample_groups)) 0 1).
  - lia.
  - vm_compute. reflexivity.
  - vm_compute. reflexivity.
Defined.

Lemma section_tasks_order_witness :
  str_lt (py "jja20-3") (py "jja20-3") = false.
Proof.
  apply (proj2 (section_tasks_order sample_groups (py "jja20-3")) 0 1).
  - lia.
  - vm_compute. reflexivity.
  - vm_compute. reflexivity.
Defined.

Lemma report_lists_every_task_witness :
  exists text before bullets after,
    Some (write_groups_to_markdown sample_groups) = Some text /\
    text = before ++
           py "## Series: " ++ series_of (strip (py "notes")) ++
           newline ++ newline ++
           concat ((fun task_name => py "- `" ++ task_name ++ py "`" ++ newline)
                     <$> bullets) ++
           (py "- `" ++ strip (py "notes") ++ py "`" ++ newline) ++
           after.
Proof.
  apply (@report_lists_every_task ascii_tables id (py "tasks.txt")
           (py "groups.md") sample_lines (py "notes")
           {| stdout :=
                [py "Successfully grouped tasks from '" ++ py "tasks.txt" ++
                 py "' and created '" ++ py "groups.md" ++ py "'"];
              output := Some (write_groups_to_markdown sample_groups) |}).
  - vm_compute. reflexivity.
  - do 5 apply list_elem_of_further. apply list_elem_of_here.
  - intros Hb. apply Forall_inv in Hb. vm_compute in Hb. discriminate.
Defined.

Lemma report_independent_of_line_order_witness :
  main id (py "tasks.txt") (py "groups.md") (Some [py "bc_0420"; py "jja20-3"])
  = main id (py "tasks.txt") (py "groups.md") (Some [py "jja20-3"; py "bc_0420"]).
Proof.
  apply (@report_independent_of_line_order ascii_tables).
  apply perm_swap.
Defined.

(** An entry with five areas, two of them of equal count. *)
Definition sample_entry : entry :=
  {| companyId := py "12"; industryId := py "3";
     startDate := py "2024-01-01"; endDate := py "2024-01-31";
     modelName := py "jja20-3"; countNum := py "1229";
     areaCountMap :=
       [(py "a", 5%Z); (py "b", 7%Z); (py "c", 5%Z); (py "d", (-12)%Z);
        (py "e", 1200%Z)] |}.

Lemma sorted_areas_order_witness :
  ((py "b", 7%Z).2 <= (py "e", 1200%Z).2)%Z.
Proof.
  apply (proj1 (proj2 (sorted_areas_order sample_entry)) 0 1).
  - lia.
  - vm_compute. reflexivity.
  - vm_compute. reflexivity.
Defined.

Lemma table_layout_witness :
  Forall (fun line => length line = 52) (table_lines sample_entry).
Proof.
  apply (proj2 (proj2 (table_layout sample_entry))).
  split; repeat (apply Forall_cons; split; [vm_compute; lia|]);
    apply Forall_nil_2.
Defined.

End MoreRuns.
